(** * rethinkdb python2 driver, [net.py]: a shallow embedding

    The development follows [drivers/python2/rethinkdb/net.py]:

    - Python [str] helpers used by the module ([in], [count], [split],
      [rstrip], [lstrip], [join], [*]);
    - [BacktracePrettyPrinter.consider_backtrace];
    - the caret drawing of [QueryError.location];
    - [Connection._recvall], [Connection._run], [Connection.run] over a
      byte transport whose calls can fail;
    - [BatchedIterator].

    Python exceptions are explicit results; [while] loops whose exit depends
    on the peer take a fuel argument and report [OutOfFuel] when it is
    used up. *)

From Stdlib Require Import List String Ascii ZArith NArith Lia Bool Arith.
From Stdlib Require Import Strings.Byte.
Import ListNotations.

Local Open Scope string_scope.
Local Open Scope list_scope.
Local Open Scope nat_scope.

(* ------------------------------------------------------------------ *)
(** ** Python [str] operations *)

Module PyStr.

(** [strip_prefix sep s] is the remainder of [s] after a leading [sep]. *)
Fixpoint strip_prefix (sep s : string) : option string :=
  match sep with
  | EmptyString => Some s
  | String a sep' =>
      match s with
      | EmptyString => None
      | String b s' =>
          if Ascii.eqb a b then strip_prefix sep' s' else None
      end
  end.

(** [str.partition] without the separator in the result: the text before
    and after the leftmost occurrence of [sep], if there is one. *)
Fixpoint partition (sep s : string) : option (string * string) :=
  match strip_prefix sep s with
  | Some rest => Some (EmptyString, rest)
  | None =>
      match s with
      | EmptyString => None
      | String c s' =>
          match partition sep s' with
          | Some (before, after) => Some (String c before, after)
          | None => None
          end
      end
  end.

(** [sep in s]. *)
Definition contains (sep s : string) : bool :=
  match partition sep s with Some _ => true | None => false end.

Fixpoint split_fuel (n : nat) (sep s : string) : list string :=
  match partition sep s with
  | None => [s]
  | Some (before, after) =>
      match n with
      | O => [s]
      | S n' => before :: split_fuel n' sep after
      end
  end.

(** [s.split(sep)] for a non-empty [sep]: cut at the non-overlapping
    occurrences, left to right. *)
Definition split (sep s : string) : list string :=
  split_fuel (String.length s) sep s.

Fixpoint count_fuel (n : nat) (sep s : string) : nat :=
  match partition sep s with
  | None => 0
  | Some (_, after) =>
      match n with
      | O => 0
      | S n' => S (count_fuel n' sep after)
      end
  end.

(** [s.count(sep)] for a non-empty [sep]. *)
Definition count (sep s : string) : nat :=
  count_fuel (String.length s) sep s.

(** [c * n]. *)
Fixpoint repeat (c : ascii) (n : nat) : string :=
  match n with
  | O => EmptyString
  | S n' => String c (repeat c n')
  end.

Definition space : ascii := " "%char.
Definition caret : ascii := "^"%char.

(** [s.lstrip(" ")]. *)
Fixpoint lstrip (s : string) : string :=
  match s with
  | EmptyString => EmptyString
  | String c s' => if Ascii.eqb c space then lstrip s' else s
  end.

(** [s.rstrip(" ")]. *)
Fixpoint rstrip (s : string) : string :=
  match s with
  | EmptyString => EmptyString
  | String c s' =>
      match rstrip s' with
      | EmptyString => if Ascii.eqb c space then EmptyString
                       else String c EmptyString
      | r => String c r
      end
  end.

(** [sep.join(l)]. *)
Definition join (sep : string) (l : list string) : string :=
  String.concat sep l.

End PyStr.

(* ------------------------------------------------------------------ *)
(** ** The sentinel markers *)

Definition NUL : ascii := Ascii.zero.

(** ["\0begin\0"] *)
Definition PRETTY_PRINT_BEGIN_TARGET : string :=
  String NUL ("begin" ++ String NUL EmptyString).

(** ["\0end\0"] *)
Definition PRETTY_PRINT_END_TARGET : string :=
  String NUL ("end" ++ String NUL EmptyString).

(* ------------------------------------------------------------------ *)
(** ** Errors of the rendering code *)

Inductive render_error : Type :=
| AssertionError     (* a failed [assert] *)
| PathIndexError     (* a list index out of range *)
| InternalError      (* [ValueError("Internal error: can't follow path ...")] *)
| UnpackError.       (* [ValueError] of a tuple assignment of the wrong size *)

Inductive result (E A : Type) : Type :=
| Ok (a : A)
| Err (e : E).
Arguments Ok {E A} a.
Arguments Err {E A} e.

(* ------------------------------------------------------------------ *)
(** ** [BacktracePrettyPrinter] *)

(** A backtrace is a list of steps; the frames of a response are strings. *)
Definition backtrace : Type := list string.

Definition backtrace_eqb (a b : backtrace) : bool :=
  if list_eq_dec string_dec a b then true else false.

Record BacktracePrettyPrinter : Type := {
  current_backtrace : backtrace;
  target_backtrace : backtrace
}.

(** The truncation applied off the path: ["..." if len(string) > 8 else string]. *)
Definition collapse (s : string) : string :=
  if 8 <? String.length s then "..." else s.

(** The [while True] loop of [consider_backtrace], lines 35-55, from
    [prefix_match_length]. *)
Fixpoint consider_loop (fuel : nat) (complete_backtrace target : backtrace)
    (s : string) (prefix_match_length : nat)
  : option (result render_error string) :=
  if prefix_match_length =? List.length complete_backtrace then
    Some (Ok s)
  else if prefix_match_length =? List.length target then
    if (List.length target + 2 <? List.length complete_backtrace)
       || (60 <? String.length s)
    then Some (Ok (collapse s))
    else Some (Ok s)
  else
    match nth_error complete_backtrace prefix_match_length,
          nth_error target prefix_match_length with
    | Some x, Some y =>
        if String.eqb x y then
          match fuel with
          | O => None
          | S fuel' =>
              consider_loop fuel' complete_backtrace target s
                (S prefix_match_length)
          end
        else if (prefix_match_length + 2 <? List.length complete_backtrace)
                || (60 <? String.length s)
        then Some (Ok (collapse s))
        else Some (Ok s)
    | _, _ => Some (Err PathIndexError)
    end.

(** [consider_backtrace(self, string, backtrace_steps)]; [None] would mean
    that the loop is still running after [len(complete_backtrace)] rounds. *)
Definition consider_backtrace_opt (self : BacktracePrettyPrinter)
    (s : string) (backtrace_steps : backtrace)
  : option (result render_error string) :=
  let complete_backtrace := current_backtrace self ++ backtrace_steps in
  if backtrace_eqb complete_backtrace (target_backtrace self) then
    if PyStr.contains PRETTY_PRINT_BEGIN_TARGET s then Some (Err AssertionError)
    else if PyStr.contains PRETTY_PRINT_END_TARGET s then Some (Err AssertionError)
    else Some (Ok (PRETTY_PRINT_BEGIN_TARGET ++ s ++ PRETTY_PRINT_END_TARGET)%string)
  else
    consider_loop (List.length complete_backtrace) complete_backtrace
      (target_backtrace self) s 0.

(** [consider_backtrace]; the loop always answers within the fuel it is
    given (lemma [consider_loop_total] below), so the default is never used. *)
Definition consider_backtrace (self : BacktracePrettyPrinter)
    (s : string) (backtrace_steps : backtrace) : result render_error string :=
  match consider_backtrace_opt self s backtrace_steps with
  | Some r => r
  | None => Err PathIndexError
  end.

(* ------------------------------------------------------------------ *)
(** ** [QueryError.location], lines 89-122

    [query_str] is the text that lines 81-87 obtain from the pretty printer
    of the query ([query.py] and [internal.py] are not part of this file). *)

(** [a, b = l]. *)
Definition unpack2 (l : list string) : result render_error (string * string) :=
  match l with
  | [a; b] => Ok (a, b)
  | _ => Err UnpackError
  end.

Definition spaces (n : nat) : string := PyStr.repeat PyStr.space n.
Definition carets (n : nat) : string := PyStr.repeat PyStr.caret n.

(** The body of [for line in query_str.split("\n")]: the lines appended to
    [formatted_lines] and the new value of [in_target]. *)
Definition location_line (in_target : bool) (line0 : string)
  : result render_error (list string * bool) :=
  let line := PyStr.rstrip line0 in
  if negb in_target then
    if PyStr.contains PRETTY_PRINT_BEGIN_TARGET line then
      if PyStr.contains PRETTY_PRINT_END_TARGET line then
        match unpack2 (PyStr.split PRETTY_PRINT_BEGIN_TARGET line) with
        | Err e => Err e
        | Ok (before, rest) =>
            match unpack2 (PyStr.split PRETTY_PRINT_END_TARGET rest) with
            | Err e => Err e
            | Ok (target, after) =>
                Ok ([(before ++ target ++ after)%string;
                     (spaces (String.length before)
                        ++ carets (String.length target))%string],
                    false)
            end
        end
      else
        match unpack2 (PyStr.split PRETTY_PRINT_BEGIN_TARGET line) with
        | Err e => Err e
        | Ok (before, after) =>
            Ok ([(before ++ after)%string;
                 (spaces (String.length before)
                    ++ carets (String.length after))%string],
                true)
        end
    else Ok ([line], false)
  else
    let without_spaces := PyStr.lstrip line in
    let sp := spaces (String.length line - String.length without_spaces) in
    if PyStr.contains PRETTY_PRINT_END_TARGET without_spaces then
      match unpack2 (PyStr.split PRETTY_PRINT_END_TARGET without_spaces) with
      | Err e => Err e
      | Ok (before, after) =>
          Ok ([(sp ++ before ++ after)%string;
               (sp ++ carets (String.length before))%string],
              false)
      end
    else
      Ok ([(sp ++ without_spaces)%string;
           (sp ++ carets (String.length without_spaces))%string],
          true).

(** The [for] loop, threading [formatted_lines] and [in_target]. *)
Fixpoint location_loop (lines formatted_lines : list string) (in_target : bool)
  : result render_error (list string) :=
  match lines with
  | [] => Ok formatted_lines
  | line :: rest =>
      match location_line in_target line with
      | Err e => Err e
      | Ok (out, in_target') =>
          location_loop rest (formatted_lines ++ out) in_target'
      end
  end.

Definition newline : string := String (ascii_of_nat 10) EmptyString.

Definition location (query_str : string) : result render_error string :=
  if negb ((PyStr.count PRETTY_PRINT_BEGIN_TARGET query_str
              =? PyStr.count PRETTY_PRINT_END_TARGET query_str)
           && (PyStr.count PRETTY_PRINT_END_TARGET query_str =? 1))
  then Err InternalError
  else
    match location_loop (PyStr.split newline query_str) [] false with
    | Err e => Err e
    | Ok formatted_lines => Ok (PyStr.join newline formatted_lines)
    end.

(* ------------------------------------------------------------------ *)
(** ** Wire messages *)

(** Modelled from the spec: the status codes of [query_language_pb2.Response]
    (the generated protobuf module is not part of the sources), with the
    catch-all for a code the client does not know. *)
Inductive StatusCode : Type :=
| SUCCESS_EMPTY
| SUCCESS_JSON
| SUCCESS_PARTIAL
| SUCCESS_STREAM
| BROKEN_CLIENT
| BAD_QUERY
| RUNTIME_ERROR
| UNKNOWN_STATUS (n : Z).

Definition StatusCode_eq_dec (a b : StatusCode) : {a = b} + {a <> b}.
Proof. decide equality. apply Z.eq_dec. Defined.

Definition status_eqb (a b : StatusCode) : bool :=
  if StatusCode_eq_dec a b then true else false.

(** Modelled from the spec: the fields of [query_language_pb2.Response] that
    [net.py] reads. *)
Record Response : Type := {
  status_code : StatusCode;
  response : list string;
  error_message : string;
  backtrace_frame : backtrace
}.

(** Modelled from the spec: the request kinds of [query_language_pb2.Query]. *)
Inductive QueryType : Type :=
| START
| CONTINUE.

(** Modelled from the spec: the fields of [query_language_pb2.Query]. *)
Record Query : Type := {
  q_token : Z;
  q_type : QueryType;
  q_body : list byte
}.

(** [p.Query()] *)
Definition new_Query : Query :=
  {| q_token := 0%Z; q_type := START; q_body := [] |}.

(** The collaborators that [net.py] calls and that live in other modules:
    the expression objects of [query.py], [json.loads], what Python iterates
    over when a decoded value is the right operand of [list +=], and the
    protobuf codec. *)
Class Externals : Type := {
  Expr : Type;
  JSON : Type;
  JSON_eq_dec : forall a b : JSON, {a = b} + {a <> b};
  json_loads : string -> option JSON;
  json_iter : JSON -> option (list JSON);
  _finalize_query : Expr -> Query -> Query;
  SerializeToString : Query -> list byte;
  ParseFromString : list byte -> option Response
}.

(* ------------------------------------------------------------------ *)
(** ** [struct.pack("<L", n)] and [struct.unpack("<L", s)] *)

Definition byte_of_N (n : N) : byte :=
  match Byte.of_N (n mod 256) with
  | Some b => b
  | None => x00
  end.

Definition pack_L (n : N) : option (list byte) :=
  if (n <? 2 ^ 32)%N then
    Some [byte_of_N n; byte_of_N (N.shiftr n 8);
          byte_of_N (N.shiftr n 16); byte_of_N (N.shiftr n 24)]
  else None.

Definition unpack_L (s : list byte) : option N :=
  match s with
  | [b0; b1; b2; b3] =>
      Some (Byte.to_N b0 + N.shiftl (Byte.to_N b1) 8
            + N.shiftl (Byte.to_N b2) 16 + N.shiftl (Byte.to_N b3) 24)%N
  | _ => None
  end.

(* ------------------------------------------------------------------ *)
(** ** The transport

    What the peer will deliver is a finite list of segments; after the last
    one the peer has closed its side and [recv] returns the empty string.
    What goes wrong on the way is a script with one entry for each coming
    call on the socket, [sendall] or [recv], in the order of the calls:
    [None] lets the call through, [Some k] makes it raise [socket.error], a
    [sendall] having written at most [k] bytes of its data before.  Calls
    after the end of the script go through. *)

Record Socket : Type := {
  sent : list byte;
  incoming : list (list byte);
  faults : list (option nat)
}.

(** How a call on the socket ends: it returns, or it raises
    [socket.error]. *)
Inductive socket_result (A : Type) : Type :=
| Done (a : A) (s : Socket)
| Failed (s : Socket).
Arguments Done {A} a s.
Arguments Failed {A} s.

(** [socket.sendall(data)] *)
Definition sendall (data : list byte) (s : Socket) : socket_result unit :=
  match hd None (faults s) with
  | Some k =>
      Failed {| sent := sent s ++ firstn k data; incoming := incoming s;
                faults := tl (faults s) |}
  | None =>
      Done tt {| sent := sent s ++ data; incoming := incoming s;
                 faults := tl (faults s) |}
  end.

(** [socket.recv(bufsize)]: at most [bufsize] bytes of the next segment. *)
Definition recv (bufsize : nat) (s : Socket) : socket_result (list byte) :=
  match hd None (faults s) with
  | Some _ =>
      Failed {| sent := sent s; incoming := incoming s;
                faults := tl (faults s) |}
  | None =>
      match incoming s with
      | [] =>
          Done [] {| sent := sent s; incoming := []; faults := tl (faults s) |}
      | seg :: rest =>
          Done (firstn bufsize seg)
            {| sent := sent s;
               incoming := match skipn bufsize seg with
                           | [] => rest
                           | seg' => seg' :: rest
                           end;
               faults := tl (faults s) |}
      end
  end.

Record Connection : Type := {
  token : Z;
  socket : Socket
}.

(* ------------------------------------------------------------------ *)
(** ** Outcomes of stateful code *)

Section Net.
Context {ext : Externals}.

(** The exceptions raised in [Connection] and [BatchedIterator]. *)
Inductive exn : Type :=
| ExecutionError (message : string) (ast_path : backtrace) (query : Expr)
| BadQueryError (message : string) (ast_path : backtrace) (query : Expr)
| BrokenClientError            (* ValueError: server rejected our protocol buffer *)
| UnexpectedStatusError (code : StatusCode)  (* ValueError: unexpected status code *)
| JSONValueError               (* ValueError of json.loads *)
| IndexError
| TypeError
| AttributeError
| StructError                  (* struct.error *)
| DecodeError                  (* protobuf DecodeError *)
| SocketError.                 (* socket.error *)

Inductive outcome (S A : Type) : Type :=
| Return (a : A) (s : S)
| Raise (e : exn) (s : S)
| OutOfFuel.
Arguments Return {S A} a s.
Arguments Raise {S A} e s.
Arguments OutOfFuel {S A}.

Definition M (S A : Type) : Type := S -> outcome S A.

Definition ret {S A} (a : A) : M S A := fun s => Return a s.
Definition raise {S A} (e : exn) : M S A := fun s => Raise e s.

Definition bind {S A B} (m : M S A) (k : A -> M S B) : M S B :=
  fun s =>
    match m s with
    | Return a s' => k a s'
    | Raise e s' => Raise e s'
    | OutOfFuel => OutOfFuel
    end.

(** [while cond: body] *)
Fixpoint while {S} (fuel : nat) (cond : S -> bool) (body : M S unit) (s : S)
  : outcome S unit :=
  if cond s then
    match fuel with
    | O => OutOfFuel
    | S fuel' =>
        match body s with
        | Return _ s' => while fuel' cond body s'
        | Raise e s' => Raise e s'
        | OutOfFuel => OutOfFuel
        end
    end
  else Return tt s.

(** The state an outcome ends in, when it ends. *)
Definition final_state {S A} (o : outcome S A) : option S :=
  match o with
  | Return _ s => Some s
  | Raise _ s => Some s
  | OutOfFuel => None
  end.

End Net.

Arguments Return {ext S A} a s.
Arguments Raise {ext S A} e s.
Arguments OutOfFuel {ext S A}.

Declare Scope net_scope.
Notation "x <- m ;; k" := (bind m (fun x => k))
  (at level 61, m at next level, right associativity) : net_scope.
Notation "m ;;; k" := (bind m (fun _ => k))
  (at level 61, right associativity) : net_scope.
Local Open Scope net_scope.

(* ------------------------------------------------------------------ *)
(** ** [Connection] *)

Section Connection.
Context {ext : Externals}.

(** What [_run] hands back beside the status code: a decoded value, a list
    of decoded values, or [None]. *)
Inductive value : Type :=
| VJson (v : JSON)
| VList (l : list JSON)
| VNone.

(** [_get_token], lines 245-248 *)
Definition _get_token : M Connection Z :=
  fun self =>
    let tok := token self in
    Return tok {| token := (token self + 1)%Z; socket := socket self |}.

(** [self.socket.sendall(data)]: a [socket.error] is not caught. *)
Definition socket_sendall (data : list byte) : M Connection unit :=
  fun self =>
    match sendall data (socket self) with
    | Done _ sock =>
        Return tt {| token := token self; socket := sock |}
    | Failed sock =>
        Raise SocketError {| token := token self; socket := sock |}
    end.

(** [self.socket.recv(bufsize)]: a [socket.error] is not caught. *)
Definition socket_recv (bufsize : nat) : M Connection (list byte) :=
  fun self =>
    match recv bufsize (socket self) with
    | Done chunk sock =>
        Return chunk {| token := token self; socket := sock |}
    | Failed sock =>
        Raise SocketError {| token := token self; socket := sock |}
    end.

(** The loop of [_recvall], lines 252-253, from [buf]. *)
Fixpoint recvall_loop (fuel : nat) (len : nat) (buf : list byte)
    (self : Connection) : outcome Connection (list byte) :=
  if List.length buf =? len then Return buf self
  else
    match fuel with
    | O => OutOfFuel
    | S fuel' =>
        match socket_recv (len - List.length buf) self with
        | Return chunk self' => recvall_loop fuel' len (buf ++ chunk) self'
        | Raise e self' => Raise e self'
        | OutOfFuel => OutOfFuel
        end
    end.

(** [_recvall], lines 250-254 *)
Definition _recvall (fuel : nat) (len : nat) : M Connection (list byte) :=
  recvall_loop fuel len [].

Definition of_option {S A} (e : exn) (o : option A) : M S A :=
  match o with
  | Some a => ret a
  | None => raise e
  end.

(** [[json.loads(s) for s in l]] *)
Fixpoint loads_all (l : list string) : option (list JSON) :=
  match l with
  | [] => Some []
  | s :: rest =>
      match json_loads s with
      | None => None
      | Some v =>
          match loads_all rest with
          | None => None
          | Some vs => Some (v :: vs)
          end
      end
  end.

(** The dispatch on the status code, lines 273-289 of [_run]. *)
Definition dispatch (resp : Response) (query : Expr)
  : result exn (value * StatusCode) :=
  let code := status_code resp in
  match code with
  | SUCCESS_JSON =>
      match response resp with
      | [] => Err IndexError
      | s :: _ =>
          match json_loads s with
          | Some v => Ok (VJson v, code)
          | None => Err JSONValueError
          end
      end
  | SUCCESS_STREAM | SUCCESS_PARTIAL =>
      match loads_all (response resp) with
      | Some vs => Ok (VList vs, code)
      | None => Err JSONValueError
      end
  | SUCCESS_EMPTY => Ok (VNone, code)
  | RUNTIME_ERROR =>
      Err (ExecutionError (error_message resp) (backtrace_frame resp) query)
  | BAD_QUERY =>
      Err (BadQueryError (error_message resp) (backtrace_frame resp) query)
  | BROKEN_CLIENT => Err BrokenClientError
  | UNKNOWN_STATUS _ => Err (UnexpectedStatusError code)
  end.

Definition of_result {S A} (r : result exn A) : M S A :=
  match r with
  | Ok a => ret a
  | Err e => raise e
  end.

(** The request and the reply of [_run], lines 260-268. *)
Definition exchange (fuel : nat) (protobuf : Query) : M Connection Response :=
  let serialized := SerializeToString protobuf in
  header <- of_option StructError (pack_L (N.of_nat (List.length serialized))) ;;
  socket_sendall (header ++ serialized) ;;;
  resp_header <- _recvall fuel 4 ;;
  msglen <- of_option StructError (unpack_L resp_header) ;;
  response_serialized <- _recvall fuel (N.to_nat msglen) ;;
  of_option DecodeError (ParseFromString response_serialized).

(** [_run], lines 256-289 (without the debug printing) *)
Definition _run (fuel : nat) (protobuf : Query) (query : Expr)
  : M Connection (value * StatusCode) :=
  resp <- exchange fuel protobuf ;;
  of_result (dispatch resp query).

End Connection.

(* ------------------------------------------------------------------ *)
(** ** [BatchedIterator] *)

Section BatchedIterator.
Context {ext : Externals}.

Record BatchedIterator : Type := {
  query : Expr;
  it_token : Z;
  data : list JSON;
  complete : bool;
  more_query : Query
}.

(** [BatchedIterator.__init__], lines 134-143; [conn] is the connection the
    operations below are run on. *)
Definition BatchedIterator__init__ (query : Expr) (tok : Z)
    (data : list JSON) (complete : bool) : BatchedIterator :=
  {| query := query; it_token := tok; data := data; complete := complete;
     more_query := {| q_token := tok; q_type := CONTINUE; q_body := [] |} |}.

Definition set_complete (b : bool) (self : BatchedIterator) : BatchedIterator :=
  {| query := query self; it_token := it_token self; data := data self;
     complete := b; more_query := more_query self |}.

Definition set_data (d : list JSON) (self : BatchedIterator) : BatchedIterator :=
  {| query := query self; it_token := it_token self; data := d;
     complete := complete self; more_query := more_query self |}.

(** The iterator and the connection it refers to. *)
Definition Heap : Type := BatchedIterator * Connection.

(** [list += x]: the extended list, or [None] for a [TypeError]. *)
Definition iadd (l : list JSON) (x : value) : option (list JSON) :=
  match x with
  | VList more => Some (l ++ more)
  | VJson v =>
      match json_iter v with
      | Some more => Some (l ++ more)
      | None => None
      end
  | VNone => None
  end.

(** [read_more], lines 145-154 *)
Definition read_more (fuel : nat) : M Heap unit :=
  fun '(self, conn) =>
    if complete self then Return tt (self, conn)
    else
      match _run fuel (more_query self) (query self) conn with
      | OutOfFuel => OutOfFuel
      | Raise e conn' => Raise e (self, conn')
      | Return (more_data, status) conn' =>
          let self1 :=
            if status_eqb status SUCCESS_STREAM then set_complete true self
            else self in
          match iadd (data self1) more_data with
          | Some d => Return tt (set_data d self1, conn')
          | None => Raise TypeError (self1, conn')
          end
      end.

Definition len_data (h : Heap) : Z := Z.of_nat (List.length (data (fst h))).

(** [read_until], lines 156-162 *)
Definition read_until (fuel : nat) (index : option Z) : M Heap unit :=
  match index with
  | None =>
      while fuel (fun h => negb (complete (fst h))) (read_more fuel)
  | Some i =>
      fun h =>
        if (len_data h <=? i)%Z then
          while fuel
            (fun h => negb (complete (fst h)) && (len_data h <=? i)%Z)
            (read_more fuel) h
        else Return tt h
  end.

(** [l[i]] for an integer [i]. *)
Definition py_index {A} (l : list A) (i : Z) : option A :=
  if (0 <=? i)%Z then nth_error l (Z.to_nat i)
  else if (- Z.of_nat (List.length l) <=? i)%Z
       then nth_error l (Z.to_nat (Z.of_nat (List.length l) + i))
       else None.

Definition data_getitem (i : Z) : M Heap JSON :=
  fun h =>
    match py_index (data (fst h)) i with
    | Some v => Return v h
    | None => Raise IndexError h
    end.

(** One resumption of the generator [__iter__], lines 164-169, at [index]:
    the item yielded, or [None] when the generator is exhausted. *)
Definition __iter__next (fuel : nat) (index : Z) : M Heap (option JSON) :=
  fun h =>
    if negb (complete (fst h)) && (index <? len_data h)%Z then
      (read_until fuel (Some index) ;;;
       v <- data_getitem index ;;
       ret (Some v)) h
    else Return None h.

(** [list(iter(self))] from [index] on, the items yielded so far in [acc]. *)
Fixpoint iter_from (fuel : nat) (index : Z) (acc : list JSON) (h : Heap)
  : outcome Heap (list JSON) :=
  match __iter__next fuel index h with
  | OutOfFuel => OutOfFuel
  | Raise e h' => Raise e h'
  | Return None h' => Return acc h'
  | Return (Some v) h' =>
      match fuel with
      | O => OutOfFuel
      | S fuel' => iter_from fuel' (index + 1)%Z (acc ++ [v]) h'
      end
  end.

(** [list(self)]: the generator of [__iter__] run to exhaustion. *)
Definition __iter__ (fuel : nat) : M Heap (list JSON) :=
  iter_from fuel 0%Z [].

(** The argument of [__getitem__]: an integer or a slice object. *)
Inductive index_arg : Type :=
| IInt (i : Z)
| ISlice (start stop step : option Z).

(** [__getitem__], lines 171-179; a slice object has no attribute [end]. *)
Definition __getitem__ (fuel : nat) (index : index_arg) : M Heap JSON :=
  match index with
  | ISlice _ _ _ => raise AttributeError
  | IInt i =>
      (if (i <? 0)%Z then read_until fuel None
       else read_until fuel (Some i)) ;;;
      data_getitem i
  end.

(** The right operand of [==] and what [__eq__] answers. *)
Inductive other_arg : Type :=
| OtherList (l : list JSON)
| OtherObject.

Inductive eq_answer : Type :=
| Answer (b : bool)
| NotImplemented.

Definition list_eqb (a b : list JSON) : bool :=
  if list_eq_dec JSON_eq_dec a b then true else false.

(** [__eq__], lines 181-185 *)
Definition __eq__ (fuel : nat) (other : other_arg) : M Heap eq_answer :=
  match other with
  | OtherList l =>
      read_until fuel (Some (Z.of_nat (List.length l))) ;;;
      fun h =>
        Return (Answer (complete (fst h) && list_eqb (data (fst h)) l)) h
  | OtherObject => ret NotImplemented
  end.

(** What [run] returns. *)
Inductive run_result : Type :=
| RIterator (it : BatchedIterator)
| RValue (v : value).

(** [run], lines 325-333 *)
Definition run (fuel : nat) (expr : Expr) : M Connection run_result :=
  tok <- _get_token ;;
  let protobuf :=
    _finalize_query expr
      {| q_token := tok; q_type := q_type new_Query; q_body := q_body new_Query |} in
  rc <- _run fuel protobuf expr ;;
  let '(r, code) := rc in
  if status_eqb code SUCCESS_STREAM || status_eqb code SUCCESS_PARTIAL then
    match r with
    | VList l =>
        ret (RIterator
               (BatchedIterator__init__ expr (q_token protobuf) l
                  (status_eqb code SUCCESS_STREAM)))
    | _ => raise TypeError
    end
  else ret (RValue r).

End BatchedIterator.

(* ------------------------------------------------------------------ *)
(** ** Reference notions used in the statements *)

(** Length of the common prefix of two backtraces. *)
Fixpoint common_prefix_length (a b : backtrace) : nat :=
  match a, b with
  | x :: a', y :: b' =>
      if String.eqb x y then S (common_prefix_length a' b') else 0
  | _, _ => 0
  end.

(** [a] is a prefix of [b]. *)
Definition is_prefix (a b : backtrace) : Prop := exists r, b = a ++ r.

(** What the loop answers, in terms of the common prefix. *)
Definition off_target (complete_backtrace target : backtrace) (s : string)
  : string :=
  let k := common_prefix_length complete_backtrace target in
  if k =? List.length complete_backtrace then s
  else if k =? List.length target then
    if (List.length target + 2 <? List.length complete_backtrace)
       || (60 <? String.length s)
    then collapse s else s
  else if (k + 2 <? List.length complete_backtrace)
          || (60 <? String.length s)
  then collapse s else s.

(* ------------------------------------------------------------------ *)
(** ** A small instance of the collaborators, for running the code

    Expressions and decoded values are strings; a request is encoded as its
    kind, its token and its body; a reply is a status byte followed by one
    byte for each payload item. *)

Definition demo_status (b : byte) : StatusCode :=
  match Byte.to_N b with
  | 0%N => SUCCESS_EMPTY
  | 1%N => SUCCESS_JSON
  | 2%N => SUCCESS_PARTIAL
  | 3%N => SUCCESS_STREAM
  | 101%N => BROKEN_CLIENT
  | 102%N => BAD_QUERY
  | 103%N => RUNTIME_ERROR
  | n => UNKNOWN_STATUS (Z.of_N n)
  end.

Definition demo_item (b : byte) : string :=
  String (ascii_of_byte b) EmptyString.

Definition demo_parse (s : list byte) : option Response :=
  match s with
  | [] => None
  | b :: items =>
      Some {| status_code := demo_status b;
              response := map demo_item items;
              error_message := "boom";
              backtrace_frame := ["1"] |}
  end.

Definition demo_serialize (q : Query) : list byte :=
  (match q_type q with START => x01 | CONTINUE => x02 end)
    :: byte_of_N (Z.to_N (q_token q)) :: q_body q.

Definition demo_finalize (e : string) (q : Query) : Query :=
  {| q_token := q_token q; q_type := START; q_body := list_byte_of_string e |}.

Definition demo_iter (v : string) : option (list string) :=
  Some (map (fun c => String c EmptyString) (list_ascii_of_string v)).

Definition demo_ext : Externals :=
  {| Expr := string;
     JSON := string;
     JSON_eq_dec := string_dec;
     json_loads := fun s => Some s;
     json_iter := demo_iter;
     _finalize_query := demo_finalize;
     SerializeToString := demo_serialize;
     ParseFromString := demo_parse |}.

(** A connection whose peer will send one last page [["c"]] marked
    SUCCESS_STREAM, in three segments, and then close. *)
Definition demo_conn_last_page : Connection :=
  {| token := 2%Z;
     socket := {| sent := [];
                  incoming := [[x02; x00]; [x00; x00; x03]; [x63]];
                  faults := [] |} |}.

(** A connection whose peer has closed without sending anything. *)
Definition demo_conn_closed : Connection :=
  {| token := 2%Z;
     socket := {| sent := []; incoming := []; faults := [] |} |}.

(** A stream holding the first page [["a"; "b"]], more to come. *)
Definition demo_stream_open : @BatchedIterator demo_ext :=
  @BatchedIterator__init__ demo_ext "q" 1%Z ["a"; "b"] false.

(** A complete stream holding [["a"; "b"; "c"]]. *)
Definition demo_stream_done : @BatchedIterator demo_ext :=
  @BatchedIterator__init__ demo_ext "q" 1%Z ["a"; "b"; "c"] true.

(** A segment holds at least one byte. *)
Definition nonempty (seg : list byte) : Prop := seg <> [].

(** The bytes the peer has still to deliver. *)
Definition pending (conn : Connection) : list byte :=
  List.concat (incoming (socket conn)).

(** A connection whose peer will answer RUNTIME_ERROR. *)
Definition demo_conn_error : Connection :=
  {| token := 2%Z;
     socket := {| sent := [];
                  incoming := [[x01; x00; x00; x00]; [x67]];
                  faults := [] |} |}.

(** The state after the last page has been fetched into
    [demo_stream_open] over [demo_conn_last_page]. *)
Definition demo_heap_drained : @Heap demo_ext :=
  (@set_data demo_ext ["a"; "b"; "c"]
     (@set_complete demo_ext true demo_stream_open),
   {| token := 2%Z;
      socket := {| sent := [x02; x00; x00; x00; x02; x01];
                   incoming := [];
                   faults := [] |} |}).

(* ------------------------------------------------------------------ *)
(** ** Notions for the statements about [BatchedIterator] *)

Section StreamNotions.
Context {ext : Externals}.

(** [fetched fuel stop h h']: from [h], [read_more] was called again and
    again, each time at a state where [stop] did not hold yet, and [h'] is
    the first state where [stop] holds. *)
Inductive fetched (fuel : nat) (stop : Heap -> bool) : Heap -> Heap -> Prop :=
| fetched_enough (h : Heap) :
    stop h = true -> fetched fuel stop h h
| fetched_more (h h1 h' : Heap) :
    stop h = false ->
    read_more fuel h = Return tt h1 ->
    fetched fuel stop h1 h' ->
    fetched fuel stop h h'.

(** The stop condition of [read_until(i)]. *)
Definition available (i : Z) (h : Heap) : bool :=
  complete (fst h) || (i <? len_data h)%Z.

(** The accumulated items only grow and the completion flag stays set. *)
Definition grows (a b : BatchedIterator) : Prop :=
  (exists more, data b = data a ++ more) /\
  (complete a = true -> complete b = true).

(** The operations of a [BatchedIterator]. *)
Inductive operation : Type :=
| OpReadMore
| OpReadUntil (index : option Z)
| OpIter
| OpGetItem (index : index_arg)
| OpEq (other : other_arg).

(** The state an operation ends in, by returning or by raising. *)
Definition final_heap (fuel : nat) (op : operation) (h : Heap) : option Heap :=
  match op with
  | OpReadMore => final_state (read_more fuel h)
  | OpReadUntil index => final_state (read_until fuel index h)
  | OpIter => final_state (__iter__ fuel h)
  | OpGetItem index => final_state (__getitem__ fuel index h)
  | OpEq other => final_state (__eq__ fuel other h)
  end.

End StreamNotions.

(* ------------------------------------------------------------------ *)
(** ** The caret drawing, as a relation on lines

    [caret_line in_target line rows in_target'] relates a line of the
    rendered query (trailing spaces removed) to the rows drawn for it.
    Outside the bracketed region a line is copied, unless it holds the begin
    marker; inside it the indentation of a line is copied and the carets
    start at its first other character. *)

Inductive caret_line : bool -> string -> list string -> bool -> Prop :=
| caret_plain (line : string) :
    PyStr.contains PRETTY_PRINT_BEGIN_TARGET line = false ->
    caret_line false line [line] false
| caret_both (before target after : string) :
    PyStr.contains PRETTY_PRINT_BEGIN_TARGET before = false ->
    PyStr.contains PRETTY_PRINT_END_TARGET target = false ->
    caret_line false
      (before ++ PRETTY_PRINT_BEGIN_TARGET ++ target
         ++ PRETTY_PRINT_END_TARGET ++ after)%string
      [(before ++ target ++ after)%string;
       (spaces (String.length before) ++ carets (String.length target))%string]
      false
| caret_first (before after : string) :
    PyStr.contains PRETTY_PRINT_BEGIN_TARGET before = false ->
    PyStr.contains PRETTY_PRINT_END_TARGET
      (before ++ PRETTY_PRINT_BEGIN_TARGET ++ after)%string = false ->
    caret_line false
      (before ++ PRETTY_PRINT_BEGIN_TARGET ++ after)%string
      [(before ++ after)%string;
       (spaces (String.length before) ++ carets (String.length after))%string]
      true
| caret_between (indent : nat) (body : string) :
    PyStr.lstrip body = body ->
    PyStr.contains PRETTY_PRINT_END_TARGET body = false ->
    caret_line true
      (spaces indent ++ body)%string
      [(spaces indent ++ body)%string;
       (spaces indent ++ carets (String.length body))%string]
      true
| caret_last (indent : nat) (before after : string) :
    PyStr.lstrip (before ++ PRETTY_PRINT_END_TARGET ++ after)%string
    = (before ++ PRETTY_PRINT_END_TARGET ++ after)%string ->
    PyStr.contains PRETTY_PRINT_END_TARGET before = false ->
    caret_line true
      (spaces indent ++ before ++ PRETTY_PRINT_END_TARGET ++ after)%string
      [(spaces indent ++ before ++ after)%string;
       (spaces indent ++ carets (String.length before))%string]
      false.

Inductive caret_lines : bool -> list string -> list string -> Prop :=
| caret_lines_nil (in_target : bool) :
    caret_lines in_target [] []
| caret_lines_cons (in_target in_target' : bool) (line : string)
    (rows : list string) (rest more : list string) :
    caret_line in_target (PyStr.rstrip line) rows in_target' ->
    caret_lines in_target' rest more ->
    caret_lines in_target (line :: rest) (rows ++ more).

(** A query text whose bracketed region spans three lines, the second and
    third of them indented by two spaces. *)
Definition demo_multiline : string :=
  ("f(" ++ PRETTY_PRINT_BEGIN_TARGET ++ "a," ++ newline
   ++ "  b," ++ newline
   ++ "  c" ++ PRETTY_PRINT_END_TARGET ++ ")")%string.

(** ["add(1, 2)"] with the [2] bracketed. *)
Definition demo_add : string :=
  ("add(1, " ++ PRETTY_PRINT_BEGIN_TARGET ++ "2"
   ++ PRETTY_PRINT_END_TARGET ++ ")")%string.

(* ------------------------------------------------------------------ *)
(** ** Further notions *)

(** [c in s] for a character. *)
Fixpoint occurs (c : ascii) (s : string) : bool :=
  match s with
  | EmptyString => false
  | String a s' => Ascii.eqb c a || occurs c s'
  end.

(** A text free of the marker character and of line breaks. *)
Definition plain_text (s : string) : Prop :=
  occurs NUL s = false /\ occurs (ascii_of_nat 10) s = false.

(** The handshake value of [Connection.__init__], line 243. *)
Definition HANDSHAKE : N := 0xaf61ba35%N.

(** [Connection.__init__], lines 241-243, from the socket that
    [socket.create_connection] has returned: the connection object when the
    constructor returns, and the socket as the call leaves it. *)
Definition Connection__init__ {ext : Externals} : M Socket Connection :=
  fun sock =>
    match pack_L HANDSHAKE with
    | None => Raise StructError sock
    | Some magic =>
        match sendall magic sock with
        | Done _ sock' => Return {| token := 1%Z; socket := sock' |} sock'
        | Failed sock' => Raise SocketError sock'
        end
    end.

(** The frame that [_run] writes for a request, lines 260-263. *)
Definition frame (payload : list byte) : option (list byte) :=
  match pack_L (N.of_nat (List.length payload)) with
  | Some header => Some (header ++ payload)
  | None => None
  end.

(** The parts of a stream and of its connection that no operation of the
    stream changes. *)
Definition same_request {ext : Externals} (h h' : @Heap ext) : Prop :=
  token (snd h') = token (snd h)
  /\ query (fst h') = query (fst h)
  /\ it_token (fst h') = it_token (fst h)
  /\ more_query (fst h') = more_query (fst h).

(* ------------------------------------------------------------------ *)
(** ** Pages on the wire *)

Section PagesOnTheWire.
Context {ext : Externals}.

(** [paged max bytes pages rest]: [bytes] starts with one frame for each
    page of [pages], each of at most [max] bytes, all of them marked
    SUCCESS_PARTIAL except the last one, which is marked SUCCESS_STREAM, and
    goes on with [rest]. *)
Inductive paged (max : nat) :
  list byte -> list (list JSON) -> list byte -> Prop :=
| paged_last (payload f rest : list byte) (resp : Response)
    (items : list JSON) :
    frame payload = Some f ->
    List.length payload <= max ->
    ParseFromString payload = Some resp ->
    status_code resp = SUCCESS_STREAM ->
    loads_all (response resp) = Some items ->
    paged max (f ++ rest) [items] rest
| paged_more (payload f bytes rest : list byte) (resp : Response)
    (items : list JSON) (pages : list (list JSON)) :
    frame payload = Some f ->
    List.length payload <= max ->
    ParseFromString payload = Some resp ->
    status_code resp = SUCCESS_PARTIAL ->
    loads_all (response resp) = Some items ->
    paged max bytes pages rest ->
    paged max (f ++ bytes) (items :: pages) rest.

End PagesOnTheWire.

(** A connection whose peer will send the page [["c"]] marked
    SUCCESS_PARTIAL and then the page [["d"; "e"]] marked SUCCESS_STREAM. *)
Definition demo_conn_two_pages : Connection :=
  {| token := 2%Z;
     socket := {| sent := [];
                  incoming := [[x02; x00; x00]; [x00; x02; x63; x03];
                               [x00; x00; x00; x03; x64]; [x65]];
                  faults := [] |} |}.

(** [demo_conn_last_page] on a link where the first call on the socket
    goes through and the second one fails. *)
Definition demo_conn_recv_fault : Connection :=
  {| token := 2%Z;
     socket := {| sent := [];
                  incoming := [[x02; x00]; [x00; x00; x03]; [x63]];
                  faults := [None; Some 0] |} |}.

(** [demo_conn_last_page] on a link where the first call on the socket
    fails, a [sendall] after three bytes. *)
Definition demo_conn_send_fault : Connection :=
  {| token := 2%Z;
     socket := {| sent := [];
                  incoming := [[x02; x00]; [x00; x00; x03]; [x63]];
                  faults := [Some 3] |} |}.

(* ================================================================== *)
(** * Properties *)

(* ------------------------------------------------------------------ *)
(** ** Backtraces and their common prefix *)

Lemma common_prefix_length_le (a b : backtrace) :
  common_prefix_length a b <= List.length a /\
  common_prefix_length a b <= List.length b.
Proof.
  revert b; induction a as [|x a IH]; intros [|y b]; simpl; try lia.
  destruct (String.eqb x y); simpl; [|lia].
  destruct (IH b); lia.
Qed.

Lemma common_prefix_length_below (a b : backtrace) (i : nat) :
  i < common_prefix_length a b ->
  exists x, nth_error a i = Some x /\ nth_error b i = Some x.
Proof.
  revert b i; induction a as [|x a IH]; intros [|y b] i; simpl; try lia.
  destruct (String.eqb_spec x y) as [->|]; [|lia].
  destruct i as [|i]; simpl; intros Hi.
  - exists y; auto.
  - apply IH; lia.
Qed.

Lemma common_prefix_length_at (a b : backtrace) :
  common_prefix_length a b < List.length a ->
  common_prefix_length a b < List.length b ->
  exists x y,
    nth_error a (common_prefix_length a b) = Some x /\
    nth_error b (common_prefix_length a b) = Some y /\ x <> y.
Proof.
  revert b; induction a as [|x a IH]; intros [|y b]; simpl; try lia.
  destruct (String.eqb_spec x y) as [->|Hne]; simpl; intros Ha Hb.
  - apply IH; lia.
  - exists x, y; auto.
Qed.

Lemma common_prefix_length_prefix (a b : backtrace) :
  common_prefix_length a b = List.length a <-> is_prefix a b.
Proof.
  unfold is_prefix. revert b; induction a as [|x a IH]; intros b; simpl.
  - split; [exists b; reflexivity|]. destruct b; reflexivity.
  - destruct b as [|y b].
    + split; [discriminate|]. intros [r Hr]; discriminate.
    + destruct (String.eqb_spec x y) as [->|Hne].
      * split.
        -- intros H. injection H as H. apply IH in H as [r ->].
           exists r; reflexivity.
        -- intros [r Hr]. injection Hr as ->. f_equal. apply IH.
           exists r; reflexivity.
      * split; [discriminate|]. intros [r Hr]. injection Hr as Hxy _.
        congruence.
Qed.

Lemma common_prefix_length_sym (a b : backtrace) :
  common_prefix_length a b = common_prefix_length b a.
Proof.
  revert b; induction a as [|x a IH]; intros [|y b]; simpl; trivial.
  rewrite String.eqb_sym. destruct (String.eqb y x); auto.
Qed.

Lemma consider_loop_total (d : nat) :
  forall fuel complete_backtrace target s pml,
    pml + d = common_prefix_length complete_backtrace target ->
    d <= fuel ->
    consider_loop fuel complete_backtrace target s pml
    = Some (Ok (off_target complete_backtrace target s)).
Proof.
  induction d as [|d IH]; intros fuel cb tg s pml Hk Hfuel.
  - assert (pml = common_prefix_length cb tg) as -> by lia.
    unfold off_target.
    destruct (common_prefix_length_le cb tg) as [Hc Ht].
    destruct fuel; simpl;
      (destruct (Nat.eqb_spec (common_prefix_length cb tg) (List.length cb));
       [reflexivity|];
       destruct (Nat.eqb_spec (common_prefix_length cb tg) (List.length tg));
       [destruct (_ || _); reflexivity|];
       destruct (common_prefix_length_at cb tg) as (x & y & -> & -> & Hxy);
       [lia|lia|];
       apply String.eqb_neq in Hxy; rewrite Hxy;
       destruct (_ || _); reflexivity).
  - destruct (common_prefix_length_le cb tg) as [Hc Ht].
    destruct (common_prefix_length_below cb tg pml) as (x & Hx & Hy); [lia|].
    destruct fuel as [|fuel]; [lia|]. simpl.
    destruct (Nat.eqb_spec pml (List.length cb)); [lia|].
    destruct (Nat.eqb_spec pml (List.length tg)); [lia|].
    rewrite Hx, Hy, String.eqb_refl.
    apply IH; lia.
Qed.

Lemma consider_backtrace_off_target (self : BacktracePrettyPrinter)
    (s : string) (steps : backtrace) :
  current_backtrace self ++ steps <> target_backtrace self ->
  consider_backtrace self s steps
  = Ok (off_target (current_backtrace self ++ steps) (target_backtrace self) s).
Proof.
  intros Hne. unfold consider_backtrace, consider_backtrace_opt, backtrace_eqb.
  destruct (list_eq_dec string_dec _ _) as [E|_]; [contradiction|].
  rewrite (consider_loop_total
             (common_prefix_length (current_backtrace self ++ steps)
                (target_backtrace self))); trivial.
  apply common_prefix_length_le.
Qed.

(** C2: [consider_backtrace] wraps the text of the target node in the two
    markers (an assertion failure if a marker already occurs in it), leaves
    the text of a node on the path to the target unchanged, collapses the
    text of any other node to ["..."] when it is longer than 8 characters and
    the node is more than 2 levels below the target, or more than 2 levels
    off the matched prefix on a side branch, or its text is longer than 60
    characters, and leaves the text of all remaining nodes unchanged. *)
Theorem consider_backtrace_cases (self : BacktracePrettyPrinter)
    (s : string) (steps : backtrace) :
  let combined := current_backtrace self ++ steps in
  let target := target_backtrace self in
  let far :=
    (is_prefix target combined /\
       List.length target + 2 < List.length combined)
    \/ (~ is_prefix target combined /\
          common_prefix_length combined target + 2 < List.length combined)
    \/ 60 < String.length s in
  (combined = target ->
     consider_backtrace self s steps
     = if PyStr.contains PRETTY_PRINT_BEGIN_TARGET s
          || PyStr.contains PRETTY_PRINT_END_TARGET s
       then Err AssertionError
       else Ok (PRETTY_PRINT_BEGIN_TARGET ++ s ++ PRETTY_PRINT_END_TARGET)%string)
  /\ (combined <> target -> is_prefix combined target ->
        consider_backtrace self s steps = Ok s)
  /\ (combined <> target -> ~ is_prefix combined target -> far ->
        consider_backtrace self s steps
        = Ok (if 8 <? String.length s then "..." else s))
  /\ (combined <> target -> ~ is_prefix combined target -> ~ far ->
        consider_backtrace self s steps = Ok s).
Proof.
  intros combined target far. repeat split.
  - intros E. unfold consider_backtrace, consider_backtrace_opt, backtrace_eqb.
    fold combined target.
    destruct (list_eq_dec string_dec combined target) as [_|N];
      [|contradiction].
    destruct (PyStr.contains PRETTY_PRINT_BEGIN_TARGET s); simpl; trivial.
    destruct (PyStr.contains PRETTY_PRINT_END_TARGET s); trivial.
  - intros Hne Hp. rewrite consider_backtrace_off_target by exact Hne.
    unfold off_target. fold combined target.
    apply common_prefix_length_prefix in Hp. rewrite Hp, Nat.eqb_refl.
    reflexivity.
  - intros Hne Hnp Hfar. rewrite consider_backtrace_off_target by exact Hne.
    unfold off_target. fold combined target.
    destruct (Nat.eqb_spec (common_prefix_length combined target)
                (List.length combined)) as [E|_].
    { apply common_prefix_length_prefix in E. contradiction. }
    destruct (Nat.eqb_spec (common_prefix_length combined target)
                (List.length target)) as [E|N].
    + assert (is_prefix target combined) as Hd.
      { apply common_prefix_length_prefix.
        rewrite common_prefix_length_sym. exact E. }
      destruct Hfar as [[_ H]|[[H _]|H]]; [| contradiction |].
      * apply Nat.ltb_lt in H. rewrite H. reflexivity.
      * apply Nat.ltb_lt in H. rewrite H, orb_true_r. reflexivity.
    + assert (~ is_prefix target combined) as Hd.
      { intros H. apply common_prefix_length_prefix in H.
        rewrite common_prefix_length_sym in H. contradiction. }
      destruct Hfar as [[H _]|[[_ H]|H]]; [contradiction | |].
      * apply Nat.ltb_lt in H. rewrite H. reflexivity.
      * apply Nat.ltb_lt in H. rewrite H, orb_true_r. reflexivity.
  - intros Hne Hnp Hnfar. rewrite consider_backtrace_off_target by exact Hne.
    unfold off_target. fold combined target.
    destruct (Nat.eqb_spec (common_prefix_length combined target)
                (List.length combined)) as [E|_]; [reflexivity|].
    assert ((60 <? String.length s) = false) as H60.
    { apply Nat.ltb_ge. unfold far in Hnfar. lia. }
    rewrite H60, !orb_false_r.
    destruct (Nat.eqb_spec (common_prefix_length combined target)
                (List.length target)) as [E|N].
    + assert (is_prefix target combined) as Hd.
      { apply common_prefix_length_prefix.
        rewrite common_prefix_length_sym. exact E. }
      destruct (Nat.ltb_spec (List.length target + 2) (List.length combined));
        [|reflexivity].
      exfalso. apply Hnfar. left. split; assumption.
    + assert (~ is_prefix target combined) as Hd.
      { intros H. apply common_prefix_length_prefix in H.
        rewrite common_prefix_length_sym in H. contradiction. }
      destruct (Nat.ltb_spec (common_prefix_length combined target + 2)
                  (List.length combined)); [|reflexivity].
      exfalso. apply Hnfar. right. left. split; assumption.
Qed.

Lemma consider_backtrace_cases_witness :
  consider_backtrace
    {| current_backtrace := ["0"]; target_backtrace := ["0"; "1"] |}
    "a_long_side_branch" ["2"; "3"; "4"]
  = Ok "...".
Proof.
  apply (consider_backtrace_cases
           {| current_backtrace := ["0"]; target_backtrace := ["0"; "1"] |}
           "a_long_side_branch" ["2"; "3"; "4"]).
  - simpl. discriminate.
  - intros [r Hr]. simpl in Hr. discriminate.
  - right. left. split.
    + intros [r Hr]. simpl in Hr. discriminate.
    + simpl. lia.
Defined.

(* ------------------------------------------------------------------ *)
(** ** Python [str] operations *)

Lemma strip_prefix_app (sep s r : string) :
  PyStr.strip_prefix sep s = Some r -> s = (sep ++ r)%string.
Proof.
  revert s; induction sep as [|a sep IH]; intros s; simpl.
  - intros [= ->]; reflexivity.
  - destruct s as [|b s]; [discriminate|].
    destruct (Ascii.eqb_spec a b) as [->|]; [|discriminate].
    intros H. f_equal. apply IH, H.
Qed.

Lemma strip_prefix_extend (sep s r t : string) :
  PyStr.strip_prefix sep s = Some r ->
  PyStr.strip_prefix sep (s ++ t) = Some (r ++ t)%string.
Proof.
  revert s; induction sep as [|a sep IH]; intros s; simpl.
  - intros [= ->]; reflexivity.
  - destruct s as [|b s]; [discriminate|]. simpl.
    destruct (Ascii.eqb a b); [apply IH|discriminate].
Qed.

Lemma partition_app (sep s before after : string) :
  PyStr.partition sep s = Some (before, after) ->
  s = (before ++ sep ++ after)%string.
Proof.
  revert before; induction s as [|c s IH]; intros before; simpl.
  - destruct (PyStr.strip_prefix sep "") eqn:E; [|discriminate].
    intros [= <- <-]. apply strip_prefix_app in E. exact E.
  - destruct (PyStr.strip_prefix sep (String c s)) eqn:E.
    + intros [= <- <-]. apply strip_prefix_app in E. exact E.
    + destruct (PyStr.partition sep s) as [[b a]|]; [|discriminate].
      intros [= <- <-]. simpl. f_equal. apply IH. reflexivity.
Qed.

Lemma partition_leftmost (a : ascii) (sep s before after : string) :
  PyStr.partition (String a sep) s = Some (before, after) ->
  PyStr.contains (String a sep) before = false.
Proof.
  unfold PyStr.contains.
  revert before; induction s as [|c s IH]; intros before.
  - simpl. discriminate.
  - intros H. pose proof (partition_app _ _ _ _ H) as Happ.
    cbn [PyStr.partition] in H.
    destruct (PyStr.strip_prefix (String a sep) (String c s)) eqn:E.
    + injection H as <- <-. reflexivity.
    + destruct (PyStr.partition (String a sep) s) as [[b r]|] eqn:P;
        [|discriminate].
      injection H as <- <-.
      specialize (IH b eq_refl).
      cbn [PyStr.partition].
      destruct (PyStr.strip_prefix (String a sep) (String c b)) eqn:E2.
      * apply (strip_prefix_extend _ _ _ (String a sep ++ r)) in E2.
        rewrite <- Happ in E2. congruence.
      * destruct (PyStr.partition (String a sep) b); [discriminate|].
        reflexivity.
Qed.

Lemma split_fuel_nonempty (n : nat) (sep s : string) :
  PyStr.split_fuel n sep s <> [].
Proof.
  destruct n; simpl; destruct (PyStr.partition sep s) as [[b a]|];
    discriminate.
Qed.

Lemma split_fuel_single (n : nat) (sep s x : string) :
  PyStr.split_fuel n sep s = [x] -> x = s.
Proof.
  destruct n; simpl; destruct (PyStr.partition sep s) as [[b a]|];
    try (intros [= <-]; reflexivity).
  intros [= _ H]. exfalso. exact (split_fuel_nonempty _ _ _ H).
Qed.

Lemma unpack2_split (sep s before after : string) :
  unpack2 (PyStr.split sep s) = Ok (before, after) ->
  PyStr.partition sep s = Some (before, after).
Proof.
  unfold PyStr.split.
  destruct (String.length s) as [|n]; simpl;
    destruct (PyStr.partition sep s) as [[b a]|]; try discriminate.
  destruct (PyStr.split_fuel n sep a) as [|x [|y l]] eqn:E; try discriminate.
  simpl. intros [= <- <-]. apply split_fuel_single in E. subst. reflexivity.
Qed.

Lemma unpack2_error (l : list string) (e : render_error) :
  unpack2 l = Err e -> e = UnpackError.
Proof.
  destruct l as [|a [|b [|c l]]]; simpl; congruence.
Qed.

Lemma repeat_length (c : ascii) (n : nat) :
  String.length (PyStr.repeat c n) = n.
Proof. induction n; simpl; congruence. Qed.

Lemma lstrip_length (s : string) :
  String.length (PyStr.lstrip s) <= String.length s.
Proof.
  induction s as [|c s IH]; simpl; trivial.
  destruct (Ascii.eqb c PyStr.space); simpl; lia.
Qed.

Lemma lstrip_indent (s : string) :
  s = (spaces (String.length s - String.length (PyStr.lstrip s))
         ++ PyStr.lstrip s)%string.
Proof.
  unfold spaces. induction s as [|c s IH]; [reflexivity|].
  cbn [PyStr.lstrip].
  destruct (Ascii.eqb_spec c PyStr.space) as [->|Hne].
  - pose proof (lstrip_length s). cbn [String.length].
    replace (S (String.length s) - String.length (PyStr.lstrip s))
      with (S (String.length s - String.length (PyStr.lstrip s))) by lia.
    cbn [PyStr.repeat String.append]. f_equal. exact IH.
  - rewrite Nat.sub_diag. reflexivity.
Qed.

Lemma lstrip_idempotent (s : string) :
  PyStr.lstrip (PyStr.lstrip s) = PyStr.lstrip s.
Proof.
  induction s as [|c s IH]; simpl; trivial.
  destruct (Ascii.eqb c PyStr.space) eqn:E; trivial.
  simpl. rewrite E. reflexivity.
Qed.

(* ------------------------------------------------------------------ *)
(** ** [QueryError.location] *)

Lemma location_line_error (in_target : bool) (line : string)
    (e : render_error) :
  location_line in_target line = Err e -> e = UnpackError.
Proof.
  unfold location_line.
  destruct in_target; simpl;
    repeat match goal with
      | |- context [if ?b then _ else _] => destruct b
      | |- context [match unpack2 ?l with _ => _ end] =>
          let U := fresh "U" in
          destruct (unpack2 l) as [[? ?]|?] eqn:U;
          [|apply unpack2_error in U]
      end; congruence.
Qed.

Lemma location_loop_error (lines : list string) :
  forall formatted_lines in_target e,
    location_loop lines formatted_lines in_target = Err e -> e = UnpackError.
Proof.
  induction lines as [|line rest IH]; intros acc st e; simpl.
  - discriminate.
  - destruct (location_line st line) as [[out st']|e'] eqn:L.
    + apply IH.
    + intros [= <-]. exact (location_line_error _ _ _ L).
Qed.

Lemma location_line_rendered (in_target in_target' : bool) (line : string)
    (rows : list string) :
  location_line in_target line = Ok (rows, in_target') ->
  caret_line in_target (PyStr.rstrip line) rows in_target'.
Proof.
  unfold location_line.
  remember (PyStr.rstrip line) as l eqn:Hl. clear Hl line.
  destruct in_target; simpl.
  - pose proof (lstrip_indent l) as Hind.
    pose proof (lstrip_idempotent l) as Hidem.
    remember (String.length l - String.length (PyStr.lstrip l)) as n eqn:Hn.
    clear Hn.
    remember (PyStr.lstrip l) as w eqn:Hw. clear Hw. subst l.
    destruct (PyStr.contains PRETTY_PRINT_END_TARGET w) eqn:HE.
    + destruct (unpack2 (PyStr.split PRETTY_PRINT_END_TARGET w))
        as [[before after]|e] eqn:U; [|discriminate].
      intros [= <- <-]. apply unpack2_split in U.
      pose proof (partition_leftmost _ _ _ _ _ U) as Hleft.
      apply partition_app in U. subst w.
      apply caret_last; assumption.
    + intros [= <- <-]. apply caret_between; assumption.
  - destruct (PyStr.contains PRETTY_PRINT_BEGIN_TARGET l) eqn:HB.
    + destruct (PyStr.contains PRETTY_PRINT_END_TARGET l) eqn:HE.
      * destruct (unpack2 (PyStr.split PRETTY_PRINT_BEGIN_TARGET l))
          as [[before rest]|e] eqn:U; [|discriminate].
        destruct (unpack2 (PyStr.split PRETTY_PRINT_END_TARGET rest))
          as [[target after]|e] eqn:U2; [|discriminate].
        intros [= <- <-]. apply unpack2_split in U, U2.
        pose proof (partition_leftmost _ _ _ _ _ U) as Hleft.
        pose proof (partition_leftmost _ _ _ _ _ U2) as Hleft2.
        apply partition_app in U, U2. subst rest l.
        apply caret_both; assumption.
      * destruct (unpack2 (PyStr.split PRETTY_PRINT_BEGIN_TARGET l))
          as [[before after]|e] eqn:U; [|discriminate].
        intros [= <- <-]. apply unpack2_split in U.
        pose proof (partition_leftmost _ _ _ _ _ U) as Hleft.
        apply partition_app in U. subst l.
        apply caret_first; assumption.
    + intros [= <- <-]. apply caret_plain; assumption.
Qed.

Lemma location_loop_rendered (lines : list string) :
  forall formatted_lines in_target out,
    location_loop lines formatted_lines in_target = Ok out ->
    exists rows,
      caret_lines in_target lines rows /\ out = formatted_lines ++ rows.
Proof.
  induction lines as [|line rest IH]; intros acc st out; simpl.
  - intros [= <-]. exists []. split; [constructor|].
    symmetry; apply app_nil_r.
  - destruct (location_line st line) as [[rows st']|e] eqn:L; [|discriminate].
    intros H. apply IH in H as (more & Hmore & ->).
    exists (rows ++ more). split.
    + econstructor; [|exact Hmore]. apply location_line_rendered, L.
    + symmetry; apply app_assoc.
Qed.

(** C3 (as amended): [location] raises its internal error exactly when the
    rendered text does not hold one begin marker and one end marker; when it
    succeeds, its rows are those of [caret_lines]: under a line with both
    markers, as many spaces as the text before the begin marker and as many
    carets as the bracketed text; under the first line of a longer region,
    carets from the begin marker to the end of the line; under a line inside
    the region, its indentation and then carets for the rest of the line;
    under the last line, its indentation and then carets up to the end
    marker. *)
Theorem location_carets (query_str : string) :
  (location query_str = Err InternalError <->
   ~ (PyStr.count PRETTY_PRINT_BEGIN_TARGET query_str = 1 /\
      PyStr.count PRETTY_PRINT_END_TARGET query_str = 1))
  /\ (forall out,
        location query_str = Ok out ->
        exists rows,
          caret_lines false (PyStr.split newline query_str) rows /\
          out = PyStr.join newline rows).
Proof.
  unfold location. split; [split|].
  - destruct (Nat.eqb_spec (PyStr.count PRETTY_PRINT_BEGIN_TARGET query_str)
                (PyStr.count PRETTY_PRINT_END_TARGET query_str)) as [E|N];
      simpl; [|lia].
    destruct (Nat.eqb_spec (PyStr.count PRETTY_PRINT_END_TARGET query_str) 1)
      as [E1|N1]; simpl; [|lia].
    destruct (location_loop _ _ _) as [fl|e] eqn:L; [discriminate|].
    apply location_loop_error in L. subst e. discriminate.
  - intros H.
    destruct (Nat.eqb_spec (PyStr.count PRETTY_PRINT_BEGIN_TARGET query_str)
                (PyStr.count PRETTY_PRINT_END_TARGET query_str)) as [E|N];
      simpl; [|reflexivity].
    destruct (Nat.eqb_spec (PyStr.count PRETTY_PRINT_END_TARGET query_str) 1)
      as [E1|N1]; simpl; [|reflexivity].
    exfalso. apply H. lia.
  - intros out.
    destruct (negb _); [discriminate|].
    destruct (location_loop _ _ _) as [fl|e] eqn:L; [|discriminate].
    intros [= <-]. apply location_loop_rendered in L as (rows & Hrows & ->).
    exists rows. split; [exact Hrows|reflexivity].
Qed.

Lemma location_carets_witness :
  location demo_add
  = Ok ("add(1, 2)" ++ newline ++ "       ^")%string
  /\ exists rows,
       caret_lines false (PyStr.split newline demo_add) rows /\
       ("add(1, 2)" ++ newline ++ "       ^")%string
       = PyStr.join newline rows.
Proof.
  split.
  - vm_compute. reflexivity.
  - apply (proj2 (location_carets demo_add)). vm_compute. reflexivity.
Defined.

(** C3, as stated, at [demo_multiline]: the rows under the indented second
    and third line of the region start with the indentation, so they are not
    rows of carets from the start of the line. *)
Lemma location_indented_counterexample :
  location demo_multiline
  = Ok (PyStr.join newline
          ["f(a,"; "  ^^"; "  b,"; "  ^^"; "  c)"; "  ^"])
  /\ "  ^^" <> carets (String.length "  b,")
  /\ "  ^" <> carets (String.length "  c").
Proof.
  split; [vm_compute; reflexivity|].
  split; vm_compute; discriminate.
Qed.

(* ------------------------------------------------------------------ *)
(** ** [Connection._run] and [Connection.run] *)

Section ConnectionFacts.
Context {ext : Externals}.

Lemma bind_Return {S A B} (m : M S A) (k : A -> M S B) (s s' : S) (a : A) :
  m s = Return a s' -> bind m k s = k a s'.
Proof. unfold bind. intros ->. reflexivity. Qed.

Lemma bind_Raise {S A B} (m : M S A) (k : A -> M S B) (s s' : S) (e : exn) :
  m s = Raise e s' -> bind m k s = Raise e s'.
Proof. unfold bind. intros ->. reflexivity. Qed.

Lemma bind_OutOfFuel {S A B} (m : M S A) (k : A -> M S B) (s : S) :
  m s = OutOfFuel -> bind m k s = OutOfFuel.
Proof. unfold bind. intros ->. reflexivity. Qed.

(** A status that is a stream status always comes with a list. *)
Lemma dispatch_stream_list (resp : Response) (q : Expr) (v : value)
    (code : StatusCode) :
  dispatch resp q = Ok (v, code) ->
  code = status_code resp /\
  (code = SUCCESS_STREAM \/ code = SUCCESS_PARTIAL -> exists l, v = VList l).
Proof.
  unfold dispatch.
  destruct (status_code resp) eqn:E;
    repeat match goal with
      | |- context [match ?x with _ => _ end] => destruct x
      end;
    try discriminate; intros [= <- <-]; split; trivial;
    intros [H|H]; try discriminate; eauto.
Qed.

Lemma _run_stream_list (fuel : nat) (protobuf : Query) (q : Expr)
    (conn conn' : Connection) (v : value) (code : StatusCode) :
  _run fuel protobuf q conn = Return (v, code) conn' ->
  code = SUCCESS_STREAM \/ code = SUCCESS_PARTIAL -> exists l, v = VList l.
Proof.
  unfold _run, bind.
  destruct (exchange fuel protobuf conn) as [resp c1| |]; try discriminate.
  destruct (dispatch resp q) as [[v' code']|e] eqn:D; simpl;
    [|discriminate].
  unfold ret. intros [= <- <- <-]. apply (dispatch_stream_list _ _ _ _ D).
Qed.


(** Once the peer has closed, [recv], when it does not fail, keeps
    answering the empty string and the loop of [_recvall] never gets the
    bytes it is missing. *)
Lemma recvall_loop_closed (fuel : nat) :
  forall len buf conn,
    incoming (socket conn) = [] ->
    faults (socket conn) = [] ->
    List.length buf <> len ->
    recvall_loop fuel len buf conn = OutOfFuel.
Proof.
  induction fuel as [|fuel IH]; intros len buf conn Hin Hf Hlen; simpl;
    destruct (Nat.eqb_spec (List.length buf) len); try contradiction;
    trivial.
  unfold socket_recv, recv. rewrite Hf, Hin. cbn [hd tl]. rewrite app_nil_r.
  apply IH; trivial.
Qed.

End ConnectionFacts.


(** C5, at a peer that has closed before sending anything: whatever the
    number of rounds allowed, [_recvall] of 4 bytes neither returns nor
    raises. *)
Theorem _recvall_closed_never_returns :
  forall fuel : nat,
    @_recvall demo_ext fuel 4 demo_conn_closed = OutOfFuel.
Proof.
  intros fuel. unfold _recvall. apply recvall_loop_closed.
  - reflexivity.
  - reflexivity.
  - simpl. discriminate.
Qed.

(* ------------------------------------------------------------------ *)
(** ** [BatchedIterator] *)

Section IteratorFacts.
Context {ext : Externals}.

Lemma grows_refl (a : BatchedIterator) : grows a a.
Proof. split; [exists []; symmetry; apply app_nil_r | trivial]. Qed.

Lemma grows_trans (a b c : BatchedIterator) :
  grows a b -> grows b c -> grows a c.
Proof.
  intros [[m1 H1] F1] [[m2 H2] F2]. split; [|auto].
  exists (m1 ++ m2). rewrite H2, H1. symmetry; apply app_assoc.
Qed.

Lemma read_more_complete (fuel : nat) (h : Heap) :
  complete (fst h) = true -> read_more fuel h = Return tt h.
Proof. destruct h as [self conn]. simpl. intros ->. reflexivity. Qed.

(** The three ways [read_more] ends at an open stream. *)
Lemma read_more_open (fuel : nat) (self : BatchedIterator)
    (conn : Connection) :
  complete self = false ->
  (exists e conn', _run fuel (more_query self) (query self) conn = Raise e conn'
      /\ read_more fuel (self, conn) = Raise e (self, conn'))
  \/ (_run fuel (more_query self) (query self) conn = OutOfFuel
      /\ read_more fuel (self, conn) = OutOfFuel)
  \/ (exists v status conn',
        _run fuel (more_query self) (query self) conn = Return (v, status) conn'
        /\ ((exists more,
               iadd (data self) v = Some (data self ++ more) /\
               read_more fuel (self, conn)
               = Return tt
                   (set_data (data self ++ more)
                      (if status_eqb status SUCCESS_STREAM
                       then set_complete true self else self), conn'))
            \/ (iadd (data self) v = None /\
                status <> SUCCESS_STREAM /\
                read_more fuel (self, conn) = Raise TypeError (self, conn')))).
Proof.
  intros Hc. unfold read_more. rewrite Hc.
  destruct (_run fuel (more_query self) (query self) conn)
    as [[v status] conn'|e conn'|] eqn:R.
  - right; right. exists v, status, conn'. split; [reflexivity|].
    unfold status_eqb.
    destruct (StatusCode_eq_dec status SUCCESS_STREAM) as [->|Hne].
    + destruct (_run_stream_list _ _ _ _ _ _ _ R) as [l ->]; [auto|].
      left. exists l. simpl. split; reflexivity.
    + destruct v as [v|l|]; simpl.
      * destruct (json_iter v) as [more|].
        -- left. exists more. split; reflexivity.
        -- right. repeat split; trivial.
      * left. exists l. split; reflexivity.
      * right. repeat split; trivial.
  - left. exists e, conn'. split; reflexivity.
  - right; left. split; reflexivity.
Qed.

Lemma read_more_grows (fuel : nat) (h h' : Heap) :
  final_state (read_more fuel h) = Some h' -> grows (fst h) (fst h').
Proof.
  destruct h as [self conn].
  destruct (complete self) eqn:Hc.
  - rewrite read_more_complete by exact Hc. intros [= <-]. apply grows_refl.
  - destruct (read_more_open fuel self conn Hc)
      as [(e & c' & _ & ->)|[(_ & ->)|(v & st & c' & _ & [(more & _ & ->)|(_ & _ & ->)])]];
      simpl; try discriminate; intros [= <-]; simpl;
      try apply grows_refl.
    split.
    + exists more. destruct (status_eqb st SUCCESS_STREAM); reflexivity.
    + simpl. congruence.
Qed.

Lemma read_more_raise (fuel : nat) (h h' : Heap) (e : exn) :
  read_more fuel h = Raise e h' -> fst h' = fst h.
Proof.
  destruct h as [self conn].
  destruct (complete self) eqn:Hc.
  - rewrite read_more_complete by exact Hc. discriminate.
  - destruct (read_more_open fuel self conn Hc)
      as [(e' & c' & _ & ->)|[(_ & ->)|(v & st & c' & _ & [(more & _ & ->)|(_ & _ & ->)])]];
      try discriminate; intros [= _ <-]; reflexivity.
Qed.

(** What holds between the state a loop starts in and the state it ends
    in, when it holds across each round. *)
Lemma while_final {S : Type} (P : S -> S -> Prop) (cond : S -> bool)
    (body : M S unit) :
  (forall s, P s s) ->
  (forall a b c, P a b -> P b c -> P a c) ->
  (forall s s', final_state (body s) = Some s' -> P s s') ->
  forall fuel s s',
    final_state (while fuel cond body s) = Some s' -> P s s'.
Proof.
  intros Hrefl Htrans Hbody.
  induction fuel as [|fuel IH]; intros s s'; simpl;
    destruct (cond s); simpl; try discriminate;
    try (intros [= <-]; apply Hrefl).
  destruct (body s) as [[] s1|e s1|] eqn:B; simpl; try discriminate.
  - intros H. apply (Htrans _ s1).
    + apply Hbody. rewrite B. reflexivity.
    + apply IH, H.
  - intros [= <-]. apply Hbody. rewrite B. reflexivity.
Qed.

Lemma while_fetched (fuel : nat) (stop cond : Heap -> bool) :
  (forall h, cond h = negb (stop h)) ->
  forall n h h',
    while n cond (read_more fuel) h = Return tt h' ->
    fetched fuel stop h h'.
Proof.
  intros Hcond.
  induction n as [|n IH]; intros h h'; simpl; rewrite Hcond;
    destruct (stop h) eqn:Hs; simpl; try discriminate;
    try (intros [= <-]; apply fetched_enough; exact Hs).
  destruct (read_more fuel h) as [[] h1|e h1|] eqn:B; try discriminate.
  intros H. apply (fetched_more _ _ _ h1); auto.
Qed.

Lemma fetched_stop (fuel : nat) (stop : Heap -> bool) (h h' : Heap) :
  fetched fuel stop h h' -> stop h' = true.
Proof. induction 1; trivial. Qed.

Lemma read_until_index_fetched (fuel : nat) (i : Z) (h h' : Heap) :
  read_until fuel (Some i) h = Return tt h' ->
  fetched fuel (available i) h h'.
Proof.
  unfold read_until.
  destruct (Z.leb_spec (len_data h) i) as [Hle|Hlt].
  - apply while_fetched. intros x. unfold available.
    rewrite negb_orb. f_equal.
    apply Z.leb_antisym.
  - intros [= <-]. apply fetched_enough. unfold available.
    apply orb_true_iff. right. apply Z.ltb_lt. exact Hlt.
Qed.

Lemma read_until_None_fetched (fuel : nat) (h h' : Heap) :
  read_until fuel None h = Return tt h' ->
  fetched fuel (fun h => complete (fst h)) h h'.
Proof.
  unfold read_until. apply while_fetched. reflexivity.
Qed.

Lemma read_until_stops (fuel : nat) (h h' : Heap) :
  (forall i : Z,
     read_until fuel (Some i) h = Return tt h' ->
     (i < len_data h')%Z \/ complete (fst h') = true)
  /\ (read_until fuel None h = Return tt h' -> complete (fst h') = true).
Proof.
  split.
  - intros i H. apply read_until_index_fetched, fetched_stop in H.
    unfold available in H. apply orb_true_iff in H as [H|H]; auto.
    left. apply Z.ltb_lt, H.
  - intros H. apply read_until_None_fetched, fetched_stop in H. exact H.
Qed.

(** C6: when [read_until(i)] returns, more than [i] items are held or the
    stream is complete; when [read_until(None)] returns, the stream is
    complete. *)
Theorem read_until_ensures (fuel : nat) (h h' : Heap) :
  (forall i : Z,
     read_until fuel (Some i) h = Return tt h' ->
     (i < len_data h')%Z \/ complete (fst h') = true)
  /\ (read_until fuel None h = Return tt h' -> complete (fst h') = true).
Proof.
  split.
  - intros i H. apply read_until_index_fetched, fetched_stop in H.
    unfold available in H. apply orb_true_iff in H as [H|H]; auto.
    left. apply Z.ltb_lt, H.
  - intros H. apply read_until_None_fetched, fetched_stop in H. exact H.
Qed.

End IteratorFacts.

Lemma read_until_ensures_witness :
  (2 < len_data demo_heap_drained)%Z
  \/ complete (fst demo_heap_drained) = true.
Proof.
  apply (proj1 (@read_until_ensures demo_ext 10
                  (demo_stream_open, demo_conn_last_page)
                  demo_heap_drained) 2%Z).
  vm_compute. reflexivity.
Defined.

Section IteratorOperations.
Context {ext : Externals}.


Lemma py_index_nonneg {A} (l : list A) (i : Z) :
  (0 <= i)%Z -> py_index l i = nth_error l (Z.to_nat i).
Proof.
  intros H. unfold py_index.
  destruct (Z.leb_spec 0 i); [reflexivity|lia].
Qed.

(** C7: [self[i]] with [i >= 0] is [read_until(i)] followed by the lookup
    of item [i], which fails exactly when the stream has ended at or before
    [i]; [self[i]] with [i < 0] is [read_until(None)], which returns only at
    a complete stream, followed by the lookup of item [i]. *)
Theorem getitem_int (fuel : nat) (i : Z) (h : Heap) :
  ((0 <= i)%Z ->
     (forall v h',
        __getitem__ fuel (IInt i) h = Return v h' ->
        read_until fuel (Some i) h = Return tt h' /\
        nth_error (data (fst h')) (Z.to_nat i) = Some v)
     /\ (forall h',
           read_until fuel (Some i) h = Return tt h' ->
           ((i < len_data h')%Z ->
              exists v,
                nth_error (data (fst h')) (Z.to_nat i) = Some v /\
                __getitem__ fuel (IInt i) h = Return v h')
           /\ ((len_data h' <= i)%Z ->
                 complete (fst h') = true /\
                 __getitem__ fuel (IInt i) h = Raise IndexError h')))
  /\ ((i < 0)%Z ->
        __getitem__ fuel (IInt i) h
        = (read_until fuel None ;;; data_getitem i) h
        /\ (forall v h',
              __getitem__ fuel (IInt i) h = Return v h' ->
              read_until fuel None h = Return tt h' /\
              complete (fst h') = true /\
              py_index (data (fst h')) i = Some v)
        /\ (forall h',
              read_until fuel None h = Return tt h' ->
              complete (fst h') = true /\
              __getitem__ fuel (IInt i) h = data_getitem i h')).
Proof.
  split; intros Hi; unfold __getitem__.
  - destruct (Z.ltb_spec i 0) as [|_]; [lia|]. split.
    + intros v h'. unfold bind.
      destruct (read_until fuel (Some i) h) as [[] h1|e h1|];
        try discriminate.
      unfold data_getitem. rewrite py_index_nonneg by exact Hi.
      destruct (nth_error (data (fst h1)) (Z.to_nat i)) eqn:N;
        try discriminate.
      intros [= <- <-]. auto.
    + intros h' Hr. unfold bind. rewrite Hr. unfold data_getitem.
      rewrite py_index_nonneg by exact Hi. unfold len_data. split.
      * intros Hlt.
        destruct (nth_error (data (fst h')) (Z.to_nat i)) as [v|] eqn:N.
        -- exists v. auto.
        -- apply nth_error_None in N. lia.
      * intros Hle.
        destruct (proj1 (read_until_stops fuel h h') i Hr) as [H|H].
        { unfold len_data in H. lia. }
        split; [exact H|].
        destruct (nth_error (data (fst h')) (Z.to_nat i)) as [v|] eqn:N;
          [|reflexivity].
        assert (Z.to_nat i < List.length (data (fst h')))
          by (apply nth_error_Some; congruence).
        lia.
  - destruct (Z.ltb_spec i 0) as [_|]; [|lia].
    split; [reflexivity|]. split.
    + intros v h'. unfold bind.
      destruct (read_until fuel None h) as [[] h1|e h1|] eqn:Hr;
        try discriminate.
      unfold data_getitem.
      destruct (py_index (data (fst h1)) i) eqn:N; try discriminate.
      intros [= <- <-].
      pose proof (proj2 (read_until_stops fuel h h1) Hr). auto.
    + intros h' Hr. unfold bind. rewrite Hr. split; [|reflexivity].
      exact (proj2 (read_until_stops fuel h h') Hr).
Qed.


(** C10: indexing with a slice raises the attribute error at once, with the
    stream and the connection as they were. *)
Theorem getitem_slice (fuel : nat) (start stop step : option Z) (h : Heap) :
  __getitem__ fuel (ISlice start stop step) h = Raise AttributeError h.
Proof. reflexivity. Qed.

Lemma bind_final {S A B} (m : M S A) (k : A -> M S B) (s s' : S) :
  final_state (bind m k s) = Some s' ->
  (exists a s1, m s = Return a s1 /\ final_state (k a s1) = Some s')
  \/ (exists e, m s = Raise e s').
Proof.
  unfold bind. destruct (m s) as [a s1|e s1|]; simpl.
  - intros H. left. eauto.
  - intros [= <-]. right. eauto.
  - discriminate.
Qed.

Lemma read_until_grows (fuel : nat) (index : option Z) (h h' : Heap) :
  final_state (read_until fuel index h) = Some h' -> grows (fst h) (fst h').
Proof.
  assert (forall cond n,
             final_state (while n cond (read_more fuel) h) = Some h' ->
             grows (fst h) (fst h')) as Hw.
  { intros cond n.
    apply (while_final (fun a b : Heap => grows (fst a) (fst b))).
    - intros s. apply grows_refl.
    - intros a b c. apply grows_trans.
    - intros s s'. apply read_more_grows. }
  unfold read_until. destruct index as [i|].
  - destruct (len_data h <=? i)%Z; [apply Hw|].
    simpl. intros [= <-]. apply grows_refl.
  - apply Hw.
Qed.

Lemma data_getitem_final (i : Z) (h h' : Heap) :
  final_state (data_getitem i h) = Some h' -> h' = h.
Proof.
  unfold data_getitem. destruct (py_index (data (fst h)) i); simpl;
    congruence.
Qed.

Lemma iter_next_grows (fuel : nat) (index : Z) (h h' : Heap) :
  final_state (__iter__next fuel index h) = Some h' ->
  grows (fst h) (fst h').
Proof.
  unfold __iter__next.
  destruct (negb (complete (fst h)) && (index <? len_data h)%Z).
  - intros H. apply bind_final in H as [(u & h1 & Hr & H)|(e & Hr)].
    + apply bind_final in H as [(v & h2 & Hg & H)|(e & Hg)].
      * unfold ret in H. simpl in H. injection H as <-.
        assert (h2 = h1) as -> by (apply (data_getitem_final index);
                                    rewrite Hg; reflexivity).
        apply (read_until_grows fuel (Some index)). rewrite Hr. reflexivity.
      * assert (h' = h1) as -> by (apply (data_getitem_final index);
                                    rewrite Hg; reflexivity).
        apply (read_until_grows fuel (Some index)). rewrite Hr. reflexivity.
    + apply (read_until_grows fuel (Some index)). rewrite Hr. reflexivity.
  - simpl. intros [= <-]. apply grows_refl.
Qed.

Lemma iter_from_grows (fuel : nat) :
  forall index acc h h',
    final_state (iter_from fuel index acc h) = Some h' ->
    grows (fst h) (fst h').
Proof.
  induction fuel as [|fuel IH]; intros index acc h h';
    cbn [iter_from];
    match goal with
    | |- context [__iter__next ?f index h] =>
        destruct (__iter__next f index h) as [[v|] h1|e h1|] eqn:N
    end;
    simpl; try discriminate;
    try (intros [= <-]; eapply iter_next_grows; rewrite N; reflexivity).
  intros H. apply (grows_trans _ (fst h1)).
  - eapply iter_next_grows. rewrite N. reflexivity.
  - exact (IH _ _ _ _ H).
Qed.

(** C9: whatever way an operation of the stream ends, the items held
    before are a prefix of the items held after and a completion flag that
    was set is still set; [read_more] does nothing at a complete stream; and
    a [read_more] that raises leaves the items and the flag as they were. *)
Theorem stream_grows (fuel : nat) :
  (forall op h h',
     final_heap fuel op h = Some h' -> grows (fst h) (fst h'))
  /\ (forall h, complete (fst h) = true -> read_more fuel h = Return tt h)
  /\ (forall h e h',
        read_more fuel h = Raise e h' ->
        data (fst h') = data (fst h)
        /\ complete (fst h') = complete (fst h)).
Proof.
  refine (conj _ (conj _ _)).
  - intros [|index| |index|other] h h'; unfold final_heap.
    + apply read_more_grows.
    + apply read_until_grows.
    + apply iter_from_grows.
    + destruct index as [i|start stop step].
      * unfold __getitem__. intros H.
        apply bind_final in H as [(u & h1 & Hr & H)|(e & Hr)].
        -- apply data_getitem_final in H. subst h'.
           destruct (i <? 0)%Z;
             (eapply read_until_grows; rewrite Hr; reflexivity).
        -- destruct (i <? 0)%Z;
             (eapply read_until_grows; rewrite Hr; reflexivity).
      * simpl. intros [= <-]. apply grows_refl.
    + destruct other as [l|]; unfold __eq__.
      * intros H. apply bind_final in H as [(u & h1 & Hr & H)|(e & Hr)].
        -- simpl in H. injection H as <-.
           eapply read_until_grows. rewrite Hr. reflexivity.
        -- eapply read_until_grows. rewrite Hr. reflexivity.
      * simpl. intros [= <-]. apply grows_refl.
  - intros h. apply read_more_complete.
  - intros h e h' H. apply read_more_raise in H. rewrite H. auto.
Qed.

(** At a complete stream the generator stops before its first item. *)
Lemma iter_complete (fuel : nat) (h : Heap) :
  complete (fst h) = true -> __iter__ fuel h = Return [] h.
Proof.
  intros Hc. unfold __iter__.
  destruct fuel; cbn [iter_from]; unfold __iter__next; rewrite Hc;
    reflexivity.
Qed.

(** At an open stream the generator yields the items held, and stops
    without a call of [read_more]. *)
Lemma iter_from_open (k : nat) :
  forall fuel n acc h,
    complete (fst h) = false ->
    n + k = List.length (data (fst h)) ->
    k <= fuel ->
    iter_from fuel (Z.of_nat n) acc h
    = Return (acc ++ skipn n (data (fst h))) h.
Proof.
  induction k as [|k IH]; intros fuel n acc h Hc Hn Hfuel.
  - assert (iter_from fuel (Z.of_nat n) acc h = Return acc h) as ->.
    { destruct fuel; cbn [iter_from]; unfold __iter__next, len_data;
        rewrite Hc; simpl;
        (destruct (Z.ltb_spec (Z.of_nat n)
                     (Z.of_nat (List.length (data (fst h)))));
         [lia|reflexivity]). }
    rewrite skipn_all2 by lia. rewrite app_nil_r. reflexivity.
  - destruct fuel as [|fuel]; [lia|].
    destruct (nth_error (data (fst h)) n) as [v|] eqn:N.
    2:{ apply nth_error_None in N. lia. }
    assert (__iter__next (S fuel) (Z.of_nat n) h = Return (Some v) h) as E.
    { unfold __iter__next, len_data. rewrite Hc. simpl negb.
      destruct (Z.ltb_spec (Z.of_nat n)
                  (Z.of_nat (List.length (data (fst h))))); [|lia].
      simpl andb. cbv iota.
      unfold bind, read_until, len_data.
      destruct (Z.leb_spec (Z.of_nat (List.length (data (fst h))))
                  (Z.of_nat n)); [lia|].
      unfold data_getitem. rewrite py_index_nonneg by lia.
      rewrite Nat2Z.id, N. reflexivity. }
    cbn [iter_from]. rewrite E.
    replace (Z.of_nat n + 1)%Z with (Z.of_nat (S n)) by lia.
    rewrite IH by (trivial; lia).
    rewrite <- app_assoc. simpl.
    f_equal. f_equal.
    clear - N. revert n N.
    induction (data (fst h)) as [|x l IHl]; intros [|n] N;
      try discriminate.
    + injection N as ->. reflexivity.
    + simpl. apply IHl. exact N.
Qed.

End IteratorOperations.

(* ------------------------------------------------------------------ *)
(** ** The stream at the demonstration connections *)

(** C1, at a stream that holds [["a"; "b"]] and whose next page would be the
    last one, [["c"]]: the generator yields [["a"; "b"]] and stops, the
    connection untouched and the stream still open; and at a complete stream
    that holds [["a"; "b"; "c"]] it yields nothing. *)
Theorem iter_stops_short :
  forall fuel : nat,
    @__iter__ demo_ext (2 + fuel) (demo_stream_open, demo_conn_last_page)
    = Return (["a"; "b"] : list (@JSON demo_ext))
        (demo_stream_open, demo_conn_last_page)
    /\ @__iter__ demo_ext fuel (demo_stream_done, demo_conn_closed)
       = Return ([] : list (@JSON demo_ext))
           (demo_stream_done, demo_conn_closed).
Proof.
  intros fuel. split.
  - exact (@iter_from_open demo_ext 2 (2 + fuel) 0 []
             (demo_stream_open, demo_conn_last_page)
             eq_refl eq_refl (Nat.le_add_r 2 fuel)).
  - apply (@iter_complete demo_ext). reflexivity.
Qed.

Lemma getitem_int_witness :
  (@read_until demo_ext 10 None (demo_stream_open, demo_conn_last_page)
   = Return tt demo_heap_drained
   /\ complete (fst demo_heap_drained) = true
   /\ py_index (data (fst demo_heap_drained)) (-3)%Z = Some "a")
  /\ (@read_until demo_ext 10 (Some 2%Z)
        (demo_stream_open, demo_conn_last_page)
      = Return tt demo_heap_drained
      /\ nth_error (data (fst demo_heap_drained)) (Z.to_nat 2) = Some "c").
Proof.
  split.
  - apply (proj1 (proj2 (proj2 (@getitem_int demo_ext 10 (-3)%Z
                                  (demo_stream_open, demo_conn_last_page))
                           eq_refl))).
    vm_compute. reflexivity.
  - apply (proj1 (proj1 (@getitem_int demo_ext 10 2%Z
                           (demo_stream_open, demo_conn_last_page))
                    (fun H => Z.le_0_2 H))).
    vm_compute. reflexivity.
Defined.


Lemma stream_grows_witness :
  grows demo_stream_open (fst demo_heap_drained)
  /\ @read_more demo_ext 10 (demo_stream_done, demo_conn_last_page)
     = Return tt (demo_stream_done, demo_conn_last_page)
  /\ (data demo_stream_open = data demo_stream_open /\
      complete demo_stream_open = complete demo_stream_open).
Proof.
  split; [|split].
  - apply (proj1 (@stream_grows demo_ext 10) (OpReadUntil None)
             (demo_stream_open, demo_conn_last_page) demo_heap_drained).
    vm_compute. reflexivity.
  - apply (proj1 (proj2 (@stream_grows demo_ext 10))
             (demo_stream_done, demo_conn_last_page)).
    reflexivity.
  - apply (proj2 (proj2 (@stream_grows demo_ext 10))
             (demo_stream_open, demo_conn_error)
             (ExecutionError "boom" ["1"] ("q" : @Expr demo_ext))
             (demo_stream_open,
              {| token := 2%Z;
                 socket := {| sent := [x02; x00; x00; x00; x02; x01];
                              incoming := [];
                              faults := [] |} |})).
    vm_compute. reflexivity.
Defined.

(* ------------------------------------------------------------------ *)
(** ** [_recvall] while the peer delivers *)

Section RecvallFacts.
Context {ext : Externals}.

Lemma concat_requeue (seg : list byte) (rest : list (list byte)) :
  List.concat (match seg with [] => rest | b :: l => (b :: l) :: rest end)
  = seg ++ List.concat rest.
Proof. destruct seg; reflexivity. Qed.

Lemma Forall_requeue (seg : list byte) (rest : list (list byte)) :
  Forall nonempty rest ->
  Forall nonempty (match seg with [] => rest | b :: l => (b :: l) :: rest end).
Proof.
  intros H. destruct seg; trivial. constructor; trivial. discriminate.
Qed.

(** With [k] bytes missing, at least [k] bytes to come in non-empty
    segments, no call that fails and [k] rounds allowed, the loop returns
    the buffer extended by exactly the next [k] bytes and leaves the others
    to be read. *)
Lemma recvall_loop_exact (k : nat) :
  forall fuel len buf conn,
    Forall nonempty (incoming (socket conn)) ->
    faults (socket conn) = [] ->
    List.length buf + k = len ->
    k <= List.length (pending conn) ->
    k <= fuel ->
    exists conn',
      recvall_loop fuel len buf conn
      = Return (buf ++ firstn k (pending conn)) conn'
      /\ pending conn' = skipn k (pending conn)
      /\ Forall nonempty (incoming (socket conn'))
      /\ faults (socket conn') = []
      /\ token conn' = token conn
      /\ sent (socket conn') = sent (socket conn).
Proof.
  induction k as [k IH] using lt_wf_ind.
  intros fuel len buf conn Hne Hok Hlen Hpend Hfuel.
  destruct k as [|k].
  - exists conn. rewrite app_nil_r. repeat split; trivial.
    destruct fuel; simpl;
      (destruct (Nat.eqb_spec (List.length buf) len); [reflexivity|lia]).
  - destruct fuel as [|fuel]; [lia|]. cbn [recvall_loop].
    destruct (Nat.eqb_spec (List.length buf) len) as [|_]; [lia|].
    assert (len - List.length buf = S k) as -> by lia.
    remember (S k) as m eqn:Hm.
    unfold socket_recv, recv, pending in *.
    destruct conn as [tok [snt inc flt]].
    cbn [socket incoming token sent faults] in *. subst flt. cbn [hd tl].
    destruct inc as [|seg rest]; [cbn in Hpend; lia|].
    apply Forall_cons_iff in Hne as [Hseg Hrest].
    cbn [List.concat] in *. rewrite length_app in Hpend.
    assert (1 <= List.length (firstn m seg)) as Hchunk.
    { rewrite length_firstn. destruct seg; [contradiction Hseg; reflexivity|].
      cbn [List.length]. lia. }
    rewrite length_firstn in Hchunk.
    destruct (IH (m - Nat.min m (List.length seg))) with
      (fuel := fuel) (len := len)
      (buf := buf ++ firstn m seg)
      (conn := {| token := tok;
                  socket := {| sent := snt;
                               incoming := match skipn m seg with
                                           | [] => rest
                                           | b :: l => (b :: l) :: rest
                                           end;
                               faults := [] |} |})
      as (conn' & Hrun & Hp & Hf & Hok' & Ht & Hs).
    + lia.
    + cbn [socket incoming]. apply Forall_requeue, Hrest.
    + reflexivity.
    + rewrite length_app, length_firstn. lia.
    + cbn [socket incoming]. rewrite concat_requeue, length_app, length_skipn.
      lia.
    + lia.
    + exists conn'. cbn [socket incoming token sent faults] in *.
      rewrite concat_requeue in Hrun, Hp.
      rewrite Hrun. repeat split; trivial.
      * f_equal. rewrite <- app_assoc. f_equal.
        rewrite (firstn_app m seg (List.concat rest)).
        destruct (Nat.le_ge_cases m (List.length seg)) as [Hle|Hge].
        -- replace (m - Nat.min m (List.length seg)) with 0 by lia.
           replace (m - List.length seg) with 0 by lia. reflexivity.
        -- rewrite (skipn_all2 seg Hge). cbn [app].
           f_equal. f_equal. lia.
      * rewrite Hp. rewrite (skipn_app m seg (List.concat rest)).
        destruct (Nat.le_ge_cases m (List.length seg)) as [Hle|Hge].
        -- replace (m - Nat.min m (List.length seg)) with 0 by lia.
           replace (m - List.length seg) with 0 by lia. reflexivity.
        -- rewrite (skipn_all2 seg Hge). cbn [app].
           f_equal. lia.
Qed.

(** [_recvall(n)] returns exactly the next [n] bytes, however they are cut
    into segments, when the peer delivers that many and no call fails. *)
Lemma _recvall_exact (n : nat) (conn : Connection) :
  Forall nonempty (incoming (socket conn)) ->
  faults (socket conn) = [] ->
  n <= List.length (pending conn) ->
  exists conn',
    _recvall n n conn = Return (firstn n (pending conn)) conn'
    /\ pending conn' = skipn n (pending conn).
Proof.
  intros Hne Hok Hn.
  destruct (recvall_loop_exact n n n [] conn Hne Hok eq_refl Hn (le_n n))
    as (conn' & H & Hp & _).
  exists conn'. split; assumption.
Qed.

End RecvallFacts.

(* ================================================================== *)
(** * Further properties *)

(* ------------------------------------------------------------------ *)
(** ** The size of what [consider_backtrace] returns off the path *)

(** X1: for a node that is neither the target nor on the path to it,
    [consider_backtrace] never fails, returns the text itself or ["..."],
    and what it returns is at most 60 characters long, and at most 8 when
    the node is more than 2 levels away from the part of its path that it
    shares with the target. *)
Theorem consider_backtrace_bounded (self : BacktracePrettyPrinter)
    (s : string) (steps : backtrace) :
  current_backtrace self ++ steps <> target_backtrace self ->
  ~ is_prefix (current_backtrace self ++ steps) (target_backtrace self) ->
  exists out,
    consider_backtrace self s steps = Ok out
    /\ (out = s \/ out = "...")
    /\ String.length out <= 60
    /\ (common_prefix_length (current_backtrace self ++ steps)
          (target_backtrace self) + 2
        < List.length (current_backtrace self ++ steps) ->
        String.length out <= 8).
Proof.
  intros Hne Hnp. rewrite consider_backtrace_off_target by exact Hne.
  eexists. split; [reflexivity|].
  unfold off_target.
  set (combined := current_backtrace self ++ steps) in *.
  set (target := target_backtrace self) in *.
  destruct (Nat.eqb_spec (common_prefix_length combined target)
              (List.length combined)) as [E|_].
  { apply common_prefix_length_prefix in E. contradiction. }
  assert (forall b : bool,
             (b = false -> String.length s <= 60) ->
             let out := if b then collapse s else s in
             (out = s \/ out = "...") /\ String.length out <= 60 /\
             (b = true -> String.length out <= 8)) as Hcase.
  { intros [|] Hb; simpl.
    - unfold collapse. destruct (Nat.ltb_spec 8 (String.length s)).
      + split; [right; reflexivity|]. split; simpl; intros; lia.
      + split; [left; reflexivity|]. split; intros; lia.
    - split; [left; reflexivity|]. split; [auto|discriminate]. }
  destruct (Nat.eqb_spec (common_prefix_length combined target)
              (List.length target)) as [E|N].
  - destruct (Hcase ((List.length target + 2 <? List.length combined)
                     || (60 <? String.length s))) as (H1 & H2 & H3).
    { intros H. apply orb_false_iff in H as [_ H].
      apply Nat.ltb_ge in H. exact H. }
    repeat split; trivial. intros Hfar. apply H3.
    apply orb_true_iff. left. apply Nat.ltb_lt. lia.
  - destruct (Hcase ((common_prefix_length combined target + 2
                      <? List.length combined)
                     || (60 <? String.length s))) as (H1 & H2 & H3).
    { intros H. apply orb_false_iff in H as [_ H].
      apply Nat.ltb_ge in H. exact H. }
    repeat split; trivial. intros Hfar. apply H3.
    apply orb_true_iff. left. apply Nat.ltb_lt. lia.
Qed.

Lemma consider_backtrace_bounded_witness :
  exists out,
    consider_backtrace
      {| current_backtrace := ["0"]; target_backtrace := ["0"; "1"] |}
      "a_long_side_branch" ["2"; "3"; "4"] = Ok out
    /\ (out = "a_long_side_branch" \/ out = "...")
    /\ String.length out <= 60
    /\ (common_prefix_length (["0"] ++ ["2"; "3"; "4"]) ["0"; "1"] + 2
        < List.length (["0"] ++ ["2"; "3"; "4"]) ->
        String.length out <= 8).
Proof.
  apply (consider_backtrace_bounded
           {| current_backtrace := ["0"]; target_backtrace := ["0"; "1"] |}
           "a_long_side_branch" ["2"; "3"; "4"]).
  - simpl. discriminate.
  - intros [r Hr]. simpl in Hr. discriminate.
Defined.

(* ------------------------------------------------------------------ *)
(** ** Frames *)

Lemma byte_of_N_to_N (n : N) : Byte.to_N (byte_of_N n) = (n mod 256)%N.
Proof.
  unfold byte_of_N.
  destruct (Byte.of_N (n mod 256)) as [b|] eqn:E.
  - apply Byte.to_of_N. exact E.
  - apply Byte.of_N_None_iff in E.
    pose proof (N.mod_upper_bound n 256). lia.
Qed.

Lemma pack_L_unpack_L_core (n : N) :
  ((n < 2 ^ 32)%N ->
   exists header,
     pack_L n = Some header /\ List.length header = 4 /\
     unpack_L header = Some n)
  /\ ((2 ^ 32 <= n)%N -> pack_L n = None).
Proof.
  unfold pack_L. split; intros H.
  - destruct (N.ltb_spec n (2 ^ 32)) as [_|]; [|lia].
    eexists. split; [reflexivity|]. split; [reflexivity|].
    unfold unpack_L. rewrite !byte_of_N_to_N. f_equal.
    rewrite !N.shiftl_mul_pow2, !N.shiftr_div_pow2.
    change (2 ^ 8)%N with 256%N. change (2 ^ 16)%N with 65536%N.
    change (2 ^ 24)%N with 16777216%N.
    change (2 ^ 32)%N with 4294967296%N in H.
    pose proof (N.div_mod n 256).
    pose proof (N.div_mod (n / 256) 256).
    pose proof (N.div_mod (n / 65536) 256).
    pose proof (N.div_mod (n / 16777216) 256).
    assert (n / 65536 = n / 256 / 256)%N as E1
        by (rewrite N.Div0.div_div; reflexivity).
    assert (n / 16777216 = n / 65536 / 256)%N as E2
        by (rewrite N.Div0.div_div; reflexivity).
    pose proof (N.mod_upper_bound n 256).
    pose proof (N.mod_upper_bound (n / 256) 256).
    pose proof (N.mod_upper_bound (n / 65536) 256).
    pose proof (N.mod_upper_bound (n / 16777216) 256).
    assert (n / 16777216 < 256)%N
      by (apply N.Div0.div_lt_upper_bound; lia).
    assert ((n / 16777216) mod 256 = n / 16777216)%N as E3
        by (apply N.mod_small; assumption).
    lia.
  - destruct (N.ltb_spec n (2 ^ 32)); [lia|reflexivity].
Qed.

(** X2: [struct.pack("<L", n)] gives 4 bytes that [struct.unpack("<L", _)]
    reads back as [n] when [n] fits in 32 bits, and fails otherwise. *)
Theorem pack_L_unpack_L (n : N) :
  ((n < 2 ^ 32)%N ->
   exists header,
     pack_L n = Some header /\ List.length header = 4 /\
     unpack_L header = Some n)
  /\ ((2 ^ 32 <= n)%N -> pack_L n = None).
Proof. exact (pack_L_unpack_L_core n). Qed.

Lemma pack_L_unpack_L_witness :
  exists header,
    pack_L HANDSHAKE = Some header /\ List.length header = 4 /\
    unpack_L header = Some HANDSHAKE.
Proof.
  apply (proj1 (pack_L_unpack_L HANDSHAKE)). reflexivity.
Defined.

(* ------------------------------------------------------------------ *)
(** ** What [_recvall] and [_run] do to the connection *)

Section ConnectionMore.
Context {ext : Externals}.

(** What a call of [recv] does to the socket. *)
Lemma recv_pending (bufsize : nat) (s : Socket) :
  match recv bufsize s with
  | Done chunk s' =>
      List.concat (incoming s) = chunk ++ List.concat (incoming s')
      /\ List.length chunk <= bufsize
      /\ sent s' = sent s
      /\ faults s' = tl (faults s)
      /\ hd None (faults s) = None
  | Failed s' =>
      incoming s' = incoming s
      /\ sent s' = sent s
      /\ exists k, faults s = Some k :: faults s'
  end.
Proof.
  assert (match incoming s with
          | [] =>
              List.concat (incoming s) = [] ++ List.concat []
              /\ List.length (@nil byte) <= bufsize
          | seg :: rest =>
              List.concat (incoming s)
              = firstn bufsize seg
                  ++ List.concat (match skipn bufsize seg with
                                  | [] => rest
                                  | b :: l => (b :: l) :: rest
                                  end)
              /\ List.length (firstn bufsize seg) <= bufsize
          end) as Hdata.
  { destruct (incoming s) as [|seg rest]; cbn [List.concat app List.length].
    - split; [reflexivity|lia].
    - split; [|rewrite length_firstn; lia].
      rewrite concat_requeue, app_assoc, firstn_skipn. reflexivity. }
  unfold recv. destruct (faults s) as [|[k|] script]; cbn [hd tl].
  - destruct (incoming s) as [|seg rest];
      cbn [incoming sent faults]; destruct Hdata; auto.
  - cbn [incoming sent faults]. repeat split. exists k. reflexivity.
  - destruct (incoming s) as [|seg rest];
      cbn [incoming sent faults]; destruct Hdata; auto.
Qed.

(** However the loop of [_recvall] ends, it has read the bytes of the
    stream in order, written nothing and left the token counter alone; it
    raises only when a call of [recv] fails. *)
Lemma recvall_loop_ends (fuel : nat) :
  forall len buf conn,
    List.length buf <= len ->
    (forall r conn',
        recvall_loop fuel len buf conn = Return r conn' ->
        List.length r = len
        /\ (exists got, r = buf ++ got /\ pending conn = got ++ pending conn')
        /\ token conn' = token conn
        /\ sent (socket conn') = sent (socket conn))
    /\ (forall e conn',
          recvall_loop fuel len buf conn = Raise e conn' ->
          e = SocketError
          /\ (exists pre k,
                faults (socket conn) = pre ++ Some k :: faults (socket conn'))
          /\ (exists got,
                pending conn = got ++ pending conn'
                /\ List.length buf + List.length got < len)
          /\ token conn' = token conn
          /\ sent (socket conn') = sent (socket conn)).
Proof.
  induction fuel as [|fuel IH]; intros len buf conn Hbuf; cbn [recvall_loop];
    destruct (Nat.eqb_spec (List.length buf) len) as [E|N].
  1,3: split; [|discriminate];
       intros r conn' [= <- <-]; repeat split; trivial;
       exists []; rewrite app_nil_r; split; reflexivity.
  - split; discriminate.
  - unfold socket_recv.
    pose proof (recv_pending (len - List.length buf) (socket conn)) as Hp.
    destruct (recv (len - List.length buf) (socket conn)) as [chunk sock|sock].
    + destruct Hp as (Hp & Hchunk & Hs & Hf & Hhd).
      destruct (IH len (buf ++ chunk) {| token := token conn; socket := sock |})
        as [Hret Hraise].
      { rewrite length_app. lia. }
      unfold pending in *. cbn [socket token] in *. split.
      * intros r conn' Hr.
        destruct (Hret r conn' Hr) as (Hlen & (got & -> & Hgot) & Ht & Hsent).
        repeat split; trivial; try congruence.
        exists (chunk ++ got). split.
        -- symmetry; apply app_assoc.
        -- rewrite Hp, Hgot. apply app_assoc.
      * intros e conn' Hr.
        destruct (Hraise e conn' Hr)
          as (He & (pre & k & Hpre) & (got & Hgot & Hlt) & Ht & Hsent).
        repeat split; trivial; try congruence.
        -- rewrite Hf in Hpre.
           destruct (faults (socket conn)) as [|[j|] script];
             cbn [hd tl] in *.
           ++ destruct pre; discriminate.
           ++ discriminate.
           ++ exists (None :: pre), k. rewrite Hpre. reflexivity.
        -- exists (chunk ++ got). split.
           ++ rewrite Hp, Hgot. apply app_assoc.
           ++ rewrite length_app in *. lia.
    + destruct Hp as (Hin & Hs & k & Hf).
      split; [discriminate|].
      intros e conn' [= <- <-]. cbn [socket token].
      repeat split; trivial.
      * exists [], k. exact Hf.
      * exists []. unfold pending. cbn [socket List.length app].
        rewrite Hin. split; [reflexivity|lia].
Qed.

Lemma _recvall_returns_core (fuel len : nat) (conn : Connection) :
  (forall buf conn',
      _recvall fuel len conn = Return buf conn' ->
      List.length buf = len
      /\ pending conn = buf ++ pending conn'
      /\ token conn' = token conn
      /\ sent (socket conn') = sent (socket conn))
  /\ (forall e conn',
        _recvall fuel len conn = Raise e conn' ->
        e = SocketError
        /\ (exists pre k,
              faults (socket conn) = pre ++ Some k :: faults (socket conn'))
        /\ (exists got,
              pending conn = got ++ pending conn' /\ List.length got < len)
        /\ token conn' = token conn
        /\ sent (socket conn') = sent (socket conn)).
Proof.
  unfold _recvall.
  destruct (recvall_loop_ends fuel len [] conn (Nat.le_0_l len))
    as [Hret Hraise].
  split.
  - intros buf conn' H.
    destruct (Hret buf conn' H) as (Hlen & (got & -> & Hgot) & Ht & Hs).
    repeat split; trivial.
  - intros e conn' H. exact (Hraise e conn' H).
Qed.

(** X3: when [_recvall(n)] returns, it returns exactly [n] bytes, which are
    the next [n] bytes of the stream in order.  It raises only the
    [socket.error] of a call of [recv] that fails, which it does not catch;
    the bytes it had read before, fewer than [n], are then gone from the
    stream.  Either way nothing is sent and the token counter is not
    touched. *)
Theorem _recvall_returns (fuel len : nat) (conn : Connection) :
  (forall buf conn',
      _recvall fuel len conn = Return buf conn' ->
      List.length buf = len
      /\ pending conn = buf ++ pending conn'
      /\ token conn' = token conn
      /\ sent (socket conn') = sent (socket conn))
  /\ (forall e conn',
        _recvall fuel len conn = Raise e conn' ->
        e = SocketError
        /\ (exists pre k,
              faults (socket conn) = pre ++ Some k :: faults (socket conn'))
        /\ (exists got,
              pending conn = got ++ pending conn' /\ List.length got < len)
        /\ token conn' = token conn
        /\ sent (socket conn') = sent (socket conn)).
Proof. exact (_recvall_returns_core fuel len conn). Qed.

Lemma _recvall_delivered_core (fuel n : nat) (conn : Connection) :
  Forall nonempty (incoming (socket conn)) ->
  faults (socket conn) = [] ->
  n <= List.length (pending conn) ->
  n <= fuel ->
  exists conn',
    _recvall fuel n conn = Return (firstn n (pending conn)) conn'
    /\ pending conn' = skipn n (pending conn)
    /\ Forall nonempty (incoming (socket conn'))
    /\ faults (socket conn') = [].
Proof.
  intros Hne Hok Hn Hfuel.
  destruct (recvall_loop_exact n fuel n [] conn Hne Hok eq_refl Hn Hfuel)
    as (conn' & H & Hp & Hf & Hok' & _).
  exists conn'. repeat split; assumption.
Qed.

(** X4: when the peer delivers at least [n] more bytes, cut into non-empty
    segments in any way, and no call on the socket fails, [_recvall(n)]
    returns their first [n] bytes as soon as it is allowed [n] rounds, and
    leaves the others to be read. *)
Theorem _recvall_delivered (fuel n : nat) (conn : Connection) :
  Forall nonempty (incoming (socket conn)) ->
  faults (socket conn) = [] ->
  n <= List.length (pending conn) ->
  n <= fuel ->
  exists conn',
    _recvall fuel n conn = Return (firstn n (pending conn)) conn'
    /\ pending conn' = skipn n (pending conn)
    /\ Forall nonempty (incoming (socket conn'))
    /\ faults (socket conn') = [].
Proof. exact (_recvall_delivered_core fuel n conn). Qed.

End ConnectionMore.

Lemma _recvall_returns_witness :
  (List.length [x02; x00; x00; x00] = 4
   /\ pending demo_conn_last_page
      = [x02; x00; x00; x00]
          ++ pending {| token := 2%Z;
                        socket := {| sent := [];
                                     incoming := [[x03]; [x63]];
                                     faults := [] |} |})
  /\ (exists got,
        pending demo_conn_recv_fault
        = got ++ pending {| token := 2%Z;
                            socket := {| sent := [];
                                         incoming := [[x00; x00; x03]; [x63]];
                                         faults := [] |} |}
        /\ List.length got < 4).
Proof.
  split.
  - destruct (proj1 (@_recvall_returns demo_ext 5 4 demo_conn_last_page)
                [x02; x00; x00; x00]
                {| token := 2%Z;
                   socket := {| sent := [];
                                incoming := [[x03]; [x63]];
                                faults := [] |} |})
      as (Hlen & Hpending & _).
    + vm_compute. reflexivity.
    + split; assumption.
  - destruct (proj2 (@_recvall_returns demo_ext 5 4 demo_conn_recv_fault)
                SocketError
                {| token := 2%Z;
                   socket := {| sent := [];
                                incoming := [[x00; x00; x03]; [x63]];
                                faults := [] |} |})
      as (_ & _ & Hgot & _).
    + vm_compute. reflexivity.
    + exact Hgot.
Defined.

Lemma _recvall_delivered_witness :
  exists conn',
    @_recvall demo_ext 4 4 demo_conn_last_page
    = Return (firstn 4 (pending demo_conn_last_page)) conn'
    /\ pending conn' = skipn 4 (pending demo_conn_last_page)
    /\ Forall nonempty (incoming (socket conn'))
    /\ faults (socket conn') = [].
Proof.
  apply (@_recvall_delivered demo_ext 4 4 demo_conn_last_page).
  - repeat constructor; discriminate.
  - reflexivity.
  - vm_compute. repeat constructor.
  - apply le_n.
Defined.

Section RunMore.
Context {ext : Externals}.

Lemma _recvall_final (fuel len : nat) (conn conn' : Connection) :
  final_state (_recvall fuel len conn) = Some conn' ->
  token conn' = token conn /\ sent (socket conn') = sent (socket conn).
Proof.
  destruct (_recvall_returns_core fuel len conn) as [Hret Hraise].
  destruct (_recvall fuel len conn) as [buf c|e c|] eqn:R; simpl;
    try discriminate.
  - intros [= <-]. destruct (Hret buf c eq_refl) as (_ & _ & Ht & Hs). auto.
  - intros [= <-]. destruct (Hraise e c eq_refl) as (_ & _ & _ & Ht & Hs).
    auto.
Qed.

Lemma of_option_final {S A} (e : exn) (o : option A) (s s' : S) :
  final_state (of_option e o s) = Some s' -> s' = s.
Proof. destruct o; simpl; congruence. Qed.

(** [_run] with its steps written out. *)
Lemma _run_steps (fuel : nat) (protobuf : Query) (query : Expr)
    (conn : Connection) :
  _run fuel protobuf query conn
  = match pack_L (N.of_nat (List.length (SerializeToString protobuf))) with
    | None => Raise StructError conn
    | Some header =>
        match sendall (header ++ SerializeToString protobuf)
                (socket conn) with
        | Failed sock =>
            Raise SocketError {| token := token conn; socket := sock |}
        | Done _ sock =>
            match _recvall fuel 4
                    {| token := token conn; socket := sock |} with
            | OutOfFuel => OutOfFuel
            | Raise e c => Raise e c
            | Return resp_header c2 =>
                match unpack_L resp_header with
                | None => Raise StructError c2
                | Some msglen =>
                    match _recvall fuel (N.to_nat msglen) c2 with
                    | OutOfFuel => OutOfFuel
                    | Raise e c => Raise e c
                    | Return payload c3 =>
                        match ParseFromString payload with
                        | None => Raise DecodeError c3
                        | Some resp =>
                            match dispatch resp query with
                            | Ok r => Return r c3
                            | Err e => Raise e c3
                            end
                        end
                    end
                end
            end
        end
    end.
Proof.
  unfold _run, exchange, bind, of_option, of_result, socket_sendall, ret,
    raise.
  destruct (pack_L _); [|reflexivity].
  destruct (sendall _ _) as [u sock|sock]; [|reflexivity].
  destruct (_recvall fuel 4 _) as [h c2|e c2|]; try reflexivity.
  destruct (unpack_L h); [|reflexivity].
  destruct (_recvall fuel _ c2) as [p c3|e c3|]; try reflexivity.
  destruct (ParseFromString p); [|reflexivity].
  destruct (dispatch _ _); reflexivity.
Qed.

Lemma _run_sends_one_frame_core (fuel : nat) (protobuf : Query) (query : Expr)
    (conn : Connection) :
  (frame (SerializeToString protobuf) = None ->
   _run fuel protobuf query conn = Raise StructError conn)
  /\ (forall f conn',
        frame (SerializeToString protobuf) = Some f ->
        final_state (_run fuel protobuf query conn) = Some conn' ->
        token conn' = token conn
        /\ match hd None (faults (socket conn)) with
           | None => sent (socket conn') = sent (socket conn) ++ f
           | Some k =>
               _run fuel protobuf query conn = Raise SocketError conn'
               /\ sent (socket conn') = sent (socket conn) ++ firstn k f
               /\ incoming (socket conn') = incoming (socket conn)
           end).
Proof.
  rewrite _run_steps. unfold frame.
  destruct (pack_L (N.of_nat (List.length (SerializeToString protobuf))))
    as [header|]; split; try discriminate; try reflexivity.
  intros f conn' [= <-]. unfold sendall.
  destruct (hd None (faults (socket conn))) as [k|].
  { simpl. intros [= <-]. repeat split. }
  set (c1 := {| token := token conn;
                socket := {| sent := sent (socket conn)
                                     ++ header ++ SerializeToString protobuf;
                             incoming := incoming (socket conn);
                             faults := tl (faults (socket conn)) |} |}).
  assert (token c1 = token conn /\
          sent (socket c1)
          = sent (socket conn) ++ header ++ SerializeToString protobuf)
    as [Ht1 Hs1] by (split; reflexivity).
  clearbody c1.
  destruct (_recvall fuel 4 c1) as [resp_header c2|e c2|] eqn:R1.
  2:{ simpl. intros [= <-].
      destruct (_recvall_final fuel 4 c1 c2) as [Ht2 Hs2];
        [rewrite R1; reflexivity|].
      split; congruence. }
  2:{ discriminate. }
  destruct (_recvall_final fuel 4 c1 c2) as [Ht2 Hs2];
    [rewrite R1; reflexivity|].
  destruct (unpack_L resp_header) as [msglen|].
  2:{ simpl. intros [= <-]. split; congruence. }
  destruct (_recvall fuel (N.to_nat msglen) c2) as [payload c3|e c3|] eqn:R2.
  2:{ simpl. intros [= <-].
      destruct (_recvall_final fuel (N.to_nat msglen) c2 c3) as [Ht3 Hs3];
        [rewrite R2; reflexivity|].
      split; congruence. }
  2:{ discriminate. }
  destruct (_recvall_final fuel (N.to_nat msglen) c2 c3) as [Ht3 Hs3];
    [rewrite R2; reflexivity|].
  destruct (ParseFromString payload) as [resp|].
  - destruct (dispatch resp query) as [r|e]; simpl; intros [= <-];
      split; congruence.
  - simpl. intros [= <-]. split; congruence.
Qed.

(** X5: [_run] writes the request before it reads anything: a request too
    long for a 32-bit length raises with nothing written.  Otherwise, when
    the call of [sendall] goes through, then however [_run] ends, what it
    has written is the 4-byte little-endian length of the encoded request
    followed by the encoded request, once; and when the call of [sendall]
    fails after [k] bytes at most, [_run] raises this [socket.error],
    having written the first [k] bytes of that frame and read nothing.  The
    token counter is as before in every case. *)
Theorem _run_sends_one_frame (fuel : nat) (protobuf : Query) (query : Expr)
    (conn : Connection) :
  (frame (SerializeToString protobuf) = None ->
   _run fuel protobuf query conn = Raise StructError conn)
  /\ (forall f conn',
        frame (SerializeToString protobuf) = Some f ->
        final_state (_run fuel protobuf query conn) = Some conn' ->
        token conn' = token conn
        /\ match hd None (faults (socket conn)) with
           | None => sent (socket conn') = sent (socket conn) ++ f
           | Some k =>
               _run fuel protobuf query conn = Raise SocketError conn'
               /\ sent (socket conn') = sent (socket conn) ++ firstn k f
               /\ incoming (socket conn') = incoming (socket conn)
           end).
Proof. exact (_run_sends_one_frame_core fuel protobuf query conn). Qed.

Lemma _run_reads_one_frame_core (fuel : nat) (protobuf : Query) (query : Expr)
    (conn : Connection) (payload f rest : list byte) :
  Forall nonempty (incoming (socket conn)) ->
  faults (socket conn) = [] ->
  frame (SerializeToString protobuf) <> None ->
  frame payload = Some f ->
  pending conn = f ++ rest ->
  4 <= fuel ->
  List.length payload <= fuel ->
  exists conn',
    pending conn' = rest
    /\ Forall nonempty (incoming (socket conn'))
    /\ faults (socket conn') = []
    /\ _run fuel protobuf query conn
       = match ParseFromString payload with
         | None => Raise DecodeError conn'
         | Some resp =>
             match dispatch resp query with
             | Ok r => Return r conn'
             | Err e => Raise e conn'
             end
         end.
Proof.
  intros Hne Hok Hreq Hf Hpend Hfuel4 Hfuel.
  unfold frame in Hf.
  destruct (pack_L (N.of_nat (List.length payload))) as [header|] eqn:Hpack;
    [|discriminate].
  injection Hf as <-.
  assert ((N.of_nat (List.length payload) < 2 ^ 32)%N) as Hfit.
  { destruct (N.lt_ge_cases (N.of_nat (List.length payload)) (2 ^ 32))
      as [H|H]; trivial.
    apply (proj2 (pack_L_unpack_L_core _)) in H. congruence. }
  destruct (proj1 (pack_L_unpack_L_core _) Hfit) as (h & Hh & Hlen & Hun).
  rewrite Hpack in Hh. injection Hh as <-.
  rewrite _run_steps. unfold frame in Hreq.
  destruct (pack_L (N.of_nat (List.length (SerializeToString protobuf))))
    as [reqh|]; [|contradiction].
  unfold sendall. rewrite Hok. cbn [hd tl].
  set (c1 := {| token := token conn;
                socket := {| sent := sent (socket conn)
                                     ++ reqh ++ SerializeToString protobuf;
                             incoming := incoming (socket conn);
                             faults := [] |} |}).
  assert (Forall nonempty (incoming (socket c1))) as Hne1 by exact Hne.
  assert (faults (socket c1) = []) as Hok1 by reflexivity.
  assert (pending c1 = (header ++ payload) ++ rest) as Hp1 by exact Hpend.
  clearbody c1.
  destruct (_recvall_delivered_core fuel 4 c1 Hne1 Hok1)
    as (c2 & R1 & Hp2 & Hne2 & Hok2).
  { rewrite Hp1, !length_app. lia. }
  { exact Hfuel4. }
  rewrite R1.
  rewrite Hp1, <- app_assoc in Hp2 |- *.
  rewrite firstn_app, Hlen, Nat.sub_diag, firstn_all2, app_nil_r by lia.
  rewrite skipn_app, Hlen, Nat.sub_diag, skipn_all2 in Hp2 by lia.
  simpl in Hp2.
  rewrite Hun. rewrite Nat2N.id.
  destruct (_recvall_delivered_core fuel (List.length payload) c2 Hne2 Hok2)
    as (c3 & R2 & Hp3 & Hne3 & Hok3).
  { rewrite Hp2, length_app. lia. }
  { exact Hfuel. }
  rewrite R2. rewrite Hp2 in Hp3 |- *.
  rewrite firstn_app, Nat.sub_diag, firstn_all, app_nil_r.
  rewrite skipn_app, Nat.sub_diag, skipn_all in Hp3. simpl in Hp3.
  exists c3. split; [exact Hp3|]. split; [exact Hne3|].
  split; [exact Hok3|reflexivity].
Qed.

(** X6: when no call on the socket fails and the peer delivers, cut into
    non-empty segments in any way, a 4-byte little-endian length followed
    by that many bytes, [_run] consumes exactly this frame: it raises the
    decode error if the bytes do not parse and otherwise ends as the
    dispatch on the parsed response says, leaving the bytes after the frame
    to be read, still in non-empty segments. *)
Theorem _run_reads_one_frame (fuel : nat) (protobuf : Query) (query : Expr)
    (conn : Connection) (payload f rest : list byte) :
  Forall nonempty (incoming (socket conn)) ->
  faults (socket conn) = [] ->
  frame (SerializeToString protobuf) <> None ->
  frame payload = Some f ->
  pending conn = f ++ rest ->
  4 <= fuel ->
  List.length payload <= fuel ->
  exists conn',
    pending conn' = rest
    /\ Forall nonempty (incoming (socket conn'))
    /\ faults (socket conn') = []
    /\ _run fuel protobuf query conn
       = match ParseFromString payload with
         | None => Raise DecodeError conn'
         | Some resp =>
             match dispatch resp query with
             | Ok r => Return r conn'
             | Err e => Raise e conn'
             end
         end.
Proof.
  exact (_run_reads_one_frame_core fuel protobuf query conn payload f rest).
Qed.

(** X7: whether [run] returns or raises, it has used up exactly one token;
    and a stream that it returns asks for the query [run] was given and has
    a continuation request of kind CONTINUE, without a body, with the token
    of the request that [run] has sent. *)
Theorem run_uses_one_token (fuel : nat) (expr : Expr) (conn : Connection) :
  (forall conn',
     final_state (run fuel expr conn) = Some conn' ->
     token conn' = (token conn + 1)%Z)
  /\ (forall it conn',
        run fuel expr conn = Return (RIterator it) conn' ->
        query it = expr
        /\ more_query it
           = {| q_token :=
                  q_token (_finalize_query expr
                             {| q_token := token conn;
                                q_type := q_type new_Query;
                                q_body := q_body new_Query |});
                q_type := CONTINUE; q_body := [] |}
        /\ it_token it = q_token (more_query it)).
Proof.
  unfold run, _get_token. unfold bind at 1 3.
  set (protobuf := _finalize_query expr _).
  set (c1 := {| token := (token conn + 1)%Z; socket := socket conn |}).
  assert (forall c', final_state (_run fuel protobuf expr c1) = Some c' ->
                     token c' = (token conn + 1)%Z) as Htok.
  { intros c' H.
    destruct (frame (SerializeToString protobuf)) as [f|] eqn:F.
    - apply (proj1 (proj2 (_run_sends_one_frame_core fuel protobuf expr c1)
                      f c' F H)).
    - rewrite (proj1 (_run_sends_one_frame_core fuel protobuf expr c1) F) in H.
      injection H as <-. reflexivity. }
  unfold bind.
  destruct (_run fuel protobuf expr c1) as [[r code] c2|e c2|] eqn:R;
    simpl in Htok.
  - split.
    + intros conn'.
      destruct (status_eqb code SUCCESS_STREAM
                || status_eqb code SUCCESS_PARTIAL);
        [destruct r|]; simpl; intros [= <-]; apply Htok; reflexivity.
    + intros it conn'.
      destruct (status_eqb code SUCCESS_STREAM
                || status_eqb code SUCCESS_PARTIAL);
        [destruct r|]; simpl; try discriminate.
      intros [= <- <-]. repeat split.
  - split; [|discriminate]. simpl. intros conn' [= <-]. apply Htok.
    reflexivity.
  - split; discriminate.
Qed.

End RunMore.

Lemma _run_sends_one_frame_witness :
  (token (snd demo_heap_drained) = token demo_conn_last_page
   /\ sent (socket (snd demo_heap_drained))
      = sent (socket demo_conn_last_page) ++ [x02; x00; x00; x00; x02; x01])
  /\ (token {| token := 2%Z;
               socket := {| sent := [x02; x00; x00];
                            incoming := [[x02; x00]; [x00; x00; x03]; [x63]];
                            faults := [] |} |}
      = token demo_conn_send_fault
      /\ @_run demo_ext 10 (more_query demo_stream_open) "q"
           demo_conn_send_fault
         = Raise SocketError
             {| token := 2%Z;
                socket := {| sent := [x02; x00; x00];
                             incoming := [[x02; x00]; [x00; x00; x03]; [x63]];
                             faults := [] |} |}).
Proof.
  split.
  - apply (proj2 (@_run_sends_one_frame demo_ext 10
                    (more_query demo_stream_open) "q" demo_conn_last_page)
             [x02; x00; x00; x00; x02; x01] (snd demo_heap_drained)).
    + reflexivity.
    + vm_compute. reflexivity.
  - destruct (proj2 (@_run_sends_one_frame demo_ext 10
                       (more_query demo_stream_open) "q"
                       demo_conn_send_fault)
                [x02; x00; x00; x00; x02; x01]
                {| token := 2%Z;
                   socket := {| sent := [x02; x00; x00];
                                incoming := [[x02; x00]; [x00; x00; x03];
                                             [x63]];
                                faults := [] |} |})
      as (Htoken & Hraise & _).
    + reflexivity.
    + vm_compute. reflexivity.
    + split; assumption.
Defined.

Lemma _run_reads_one_frame_witness :
  exists conn',
    pending conn' = []
    /\ Forall nonempty (incoming (socket conn'))
    /\ faults (socket conn') = []
    /\ @_run demo_ext 4 (more_query demo_stream_open) "q"
         demo_conn_last_page
       = match @ParseFromString demo_ext [x03; x63] with
         | None => Raise DecodeError conn'
         | Some resp =>
             match @dispatch demo_ext resp "q" with
             | Ok r => Return r conn'
             | Err e => Raise e conn'
             end
         end.
Proof.
  apply (@_run_reads_one_frame demo_ext 4 (more_query demo_stream_open) "q"
           demo_conn_last_page [x03; x63] [x02; x00; x00; x00; x03; x63] []).
  - repeat constructor; discriminate.
  - reflexivity.
  - vm_compute. discriminate.
  - reflexivity.
  - reflexivity.
  - apply le_n.
  - repeat constructor.
Defined.

Lemma run_uses_one_token_witness :
  token {| token := 3%Z;
           socket := {| sent := [x03; x00; x00; x00; x01; x02; x71];
                        incoming := [];
                        faults := [] |} |}
  = (token demo_conn_last_page + 1)%Z.
Proof.
  apply (proj1 (@run_uses_one_token demo_ext 10 "q" demo_conn_last_page)).
  vm_compute. reflexivity.
Defined.

(* ------------------------------------------------------------------ *)
(** ** What the operations of a stream do to the connection *)

Section StreamPreserved.
Context {ext : Externals}.
Variable P : Heap -> Heap -> Prop.
Hypothesis P_refl : forall h, P h h.
Hypothesis P_trans : forall a b c, P a b -> P b c -> P a c.
Hypothesis P_read_more :
  forall fuel h h', final_state (read_more fuel h) = Some h' -> P h h'.

Lemma read_until_preserves (fuel : nat) (index : option Z) (h h' : Heap) :
  final_state (read_until fuel index h) = Some h' -> P h h'.
Proof.
  assert (forall cond n,
             final_state (while n cond (read_more fuel) h) = Some h' ->
             P h h') as Hw.
  { intros cond n. apply (while_final P); auto.
    intros s s'. apply P_read_more. }
  unfold read_until. destruct index as [i|].
  - destruct (len_data h <=? i)%Z; [apply Hw|].
    simpl. intros [= <-]. apply P_refl.
  - apply Hw.
Qed.

Lemma iter_next_preserves (fuel : nat) (index : Z) (h h' : Heap) :
  final_state (__iter__next fuel index h) = Some h' -> P h h'.
Proof.
  unfold __iter__next.
  destruct (negb (complete (fst h)) && (index <? len_data h)%Z).
  - intros H. apply bind_final in H as [(u & h1 & Hr & H)|(e & Hr)].
    + apply bind_final in H as [(v & h2 & Hg & H)|(e & Hg)].
      * unfold ret in H. simpl in H. injection H as <-.
        assert (h2 = h1) as -> by (apply (data_getitem_final index);
                                    rewrite Hg; reflexivity).
        apply (read_until_preserves fuel (Some index)). rewrite Hr.
        reflexivity.
      * assert (h' = h1) as -> by (apply (data_getitem_final index);
                                    rewrite Hg; reflexivity).
        apply (read_until_preserves fuel (Some index)). rewrite Hr.
        reflexivity.
    + apply (read_until_preserves fuel (Some index)). rewrite Hr.
      reflexivity.
  - simpl. intros [= <-]. apply P_refl.
Qed.

Lemma iter_from_preserves (fuel : nat) :
  forall index acc h h',
    final_state (iter_from fuel index acc h) = Some h' -> P h h'.
Proof.
  induction fuel as [|fuel IH]; intros index acc h h';
    cbn [iter_from];
    match goal with
    | |- context [__iter__next ?f index h] =>
        destruct (__iter__next f index h) as [[v|] h1|e h1|] eqn:N
    end;
    simpl; try discriminate;
    try (intros [= <-]; eapply iter_next_preserves; rewrite N; reflexivity).
  intros H. apply (P_trans _ h1).
  - eapply iter_next_preserves. rewrite N. reflexivity.
  - exact (IH _ _ _ _ H).
Qed.

Lemma operations_preserve (fuel : nat) (op : operation) (h h' : Heap) :
  final_heap fuel op h = Some h' -> P h h'.
Proof.
  destruct op as [|index| |index|other]; unfold final_heap.
  - apply P_read_more.
  - apply read_until_preserves.
  - apply iter_from_preserves.
  - destruct index as [i|start stop step].
    + unfold __getitem__. intros H.
      apply bind_final in H as [(u & h1 & Hr & H)|(e & Hr)].
      * apply data_getitem_final in H. subst h'.
        destruct (i <? 0)%Z;
          (eapply read_until_preserves; rewrite Hr; reflexivity).
      * destruct (i <? 0)%Z;
          (eapply read_until_preserves; rewrite Hr; reflexivity).
    + simpl. intros [= <-]. apply P_refl.
  - destruct other as [l|]; unfold __eq__.
    + intros H. apply bind_final in H as [(u & h1 & Hr & H)|(e & Hr)].
      * simpl in H. injection H as <-.
        eapply read_until_preserves. rewrite Hr. reflexivity.
      * eapply read_until_preserves. rewrite Hr. reflexivity.
    + simpl. intros [= <-]. apply P_refl.
Qed.

End StreamPreserved.

Section StreamMore.
Context {ext : Externals}.

Lemma _run_token (fuel : nat) (protobuf : Query) (q : Expr)
    (conn conn' : Connection) :
  final_state (_run fuel protobuf q conn) = Some conn' ->
  token conn' = token conn.
Proof.
  intros H.
  destruct (frame (SerializeToString protobuf)) as [f|] eqn:F.
  - apply (proj1 (proj2 (_run_sends_one_frame_core fuel protobuf q conn)
                    f conn' F H)).
  - rewrite (proj1 (_run_sends_one_frame_core fuel protobuf q conn) F) in H.
    injection H as <-. reflexivity.
Qed.

Lemma read_more_same_request (fuel : nat) (h h' : Heap) :
  final_state (read_more fuel h) = Some h' -> same_request h h'.
Proof.
  destruct h as [self conn]. unfold same_request.
  destruct (complete self) eqn:Hc.
  - rewrite read_more_complete by exact Hc. intros [= <-]. auto.
  - destruct (read_more_open fuel self conn Hc)
      as [(e & c' & R & ->)|[(_ & ->)|(v & st & c' & R & [(more & _ & ->)|(_ & _ & ->)])]];
      simpl; try discriminate; intros [= <-]; simpl;
      (split; [apply (_run_token fuel (more_query self) (query self));
               rewrite R; reflexivity|]);
      try (destruct (status_eqb st SUCCESS_STREAM)); auto.
Qed.

(** X8: however an operation of a stream ends, the token counter of the
    connection is as before, and so are the query, the token and the
    continuation request of the stream: pages are always asked for with the
    token the stream was created with, and asking uses up no token. *)
Theorem stream_keeps_request (fuel : nat) (op : operation) (h h' : Heap) :
  final_heap fuel op h = Some h' ->
  token (snd h') = token (snd h)
  /\ query (fst h') = query (fst h)
  /\ it_token (fst h') = it_token (fst h)
  /\ more_query (fst h') = more_query (fst h).
Proof.
  apply (operations_preserve same_request).
  - intros x. unfold same_request. auto.
  - unfold same_request. intros a b c (A1 & A2 & A3 & A4) (B1 & B2 & B3 & B4).
    repeat split; congruence.
  - intros f x x'. apply read_more_same_request.
Qed.

(** X9: at an open stream [read_more] writes the frame of the
    continuation request of the stream: when the call of [sendall] goes
    through, then however [read_more] ends, it has written that frame,
    once; and when the call of [sendall] fails after [k] bytes at most,
    [read_more] raises this [socket.error] with the stream as it was,
    having written the first [k] bytes of the frame and read nothing. *)
Theorem read_more_sends_continue (fuel : nat) (self self' : BatchedIterator)
    (conn conn' : Connection) (f : list byte) :
  complete self = false ->
  frame (SerializeToString (more_query self)) = Some f ->
  final_state (read_more fuel (self, conn)) = Some (self', conn') ->
  match hd None (faults (socket conn)) with
  | None => sent (socket conn') = sent (socket conn) ++ f
  | Some k =>
      read_more fuel (self, conn) = Raise SocketError (self, conn')
      /\ sent (socket conn') = sent (socket conn) ++ firstn k f
      /\ incoming (socket conn') = incoming (socket conn)
  end.
Proof.
  intros Hc Hf.
  pose proof (fun c' H =>
                proj2 (proj2 (_run_sends_one_frame_core
                                fuel (more_query self) (query self) conn)
                         f c' Hf H)) as Hs.
  destruct (read_more_open fuel self conn Hc)
    as [(e & c' & R & Hm)
       |[(_ & Hm)|(v & st & c' & R & [(more & _ & Hm)|(_ & _ & Hm)])]];
    rewrite Hm; simpl; try discriminate; intros [= _ <-];
    specialize (Hs c'); rewrite R in Hs; specialize (Hs eq_refl);
    destruct (hd None (faults (socket conn))) as [k|]; trivial;
    destruct Hs as (He & Hsent & Hin); try discriminate.
  injection He as ->. repeat split; trivial.
Qed.

Lemma no_fetch_when_available_core (fuel : nat) (h : Heap) :
  (forall i, available i h = true -> read_until fuel (Some i) h = Return tt h)
  /\ (complete (fst h) = true ->
      read_until fuel None h = Return tt h
      /\ (forall i, __getitem__ fuel (IInt i) h = data_getitem i h)
      /\ (forall l,
            __eq__ fuel (OtherList l) h
            = Return (Answer (list_eqb (data (fst h)) l)) h)).
Proof.
  assert (forall cond : Heap -> bool,
             cond h = false ->
             while fuel cond (read_more fuel) h = Return tt h) as Hw.
  { intros cond Hc. destruct fuel; simpl; rewrite Hc; reflexivity. }
  assert (forall i, available i h = true ->
                    read_until fuel (Some i) h = Return tt h) as Hi.
  { intros i Ha. unfold read_until.
    destruct (len_data h <=? i)%Z eqn:E; [|reflexivity].
    apply Hw. unfold available in Ha.
    apply orb_true_iff in Ha as [Ha|Ha].
    - rewrite Ha. reflexivity.
    - apply Z.ltb_lt in Ha. apply Z.leb_le in E. lia. }
  split; [exact Hi|]. intros Hc.
  assert (read_until fuel None h = Return tt h) as Hn.
  { unfold read_until. apply Hw. rewrite Hc. reflexivity. }
  split; [exact Hn|]. split.
  - intros i. unfold __getitem__, bind.
    destruct (i <? 0)%Z.
    + rewrite Hn. reflexivity.
    + rewrite Hi; [reflexivity|]. unfold available. rewrite Hc. reflexivity.
  - intros l. unfold __eq__, bind. rewrite Hi.
    + rewrite Hc. reflexivity.
    + unfold available. rewrite Hc. reflexivity.
Qed.

(** X10: an operation that finds what it needs does not touch the
    connection, whatever the number of rounds it is allowed:
    [read_until(i)] when item [i] is held or the stream is complete, and at a
    complete stream also [read_until(None)], [self[i]], which is then the
    plain lookup, and [self == l], which is then the plain comparison. *)
Theorem no_fetch_when_available (fuel : nat) (h : Heap) :
  (forall i, available i h = true -> read_until fuel (Some i) h = Return tt h)
  /\ (complete (fst h) = true ->
      read_until fuel None h = Return tt h
      /\ (forall i, __getitem__ fuel (IInt i) h = data_getitem i h)
      /\ (forall l,
            __eq__ fuel (OtherList l) h
            = Return (Answer (list_eqb (data (fst h)) l)) h)).
Proof. exact (no_fetch_when_available_core fuel h). Qed.

(** X11: [list(self)] never calls [read_more]: when it is allowed as many
    rounds as items are held, it returns with the stream and the connection
    as they were, and what it has yielded is the items held if the stream is
    open, and nothing if the stream is complete. *)
Theorem iter_yields_held (fuel : nat) (h : Heap) :
  List.length (data (fst h)) <= fuel ->
  __iter__ fuel h
  = Return (if complete (fst h) then [] else data (fst h)) h.
Proof.
  intros Hfuel. destruct (complete (fst h)) eqn:Hc.
  - apply iter_complete, Hc.
  - unfold __iter__.
    exact (iter_from_open (List.length (data (fst h))) fuel 0 [] h Hc
             eq_refl Hfuel).
Qed.

(** X12: at a complete stream holding [n] items, [self[i]] for
    [-n <= i < 0] is [self[n + i]], [self[i]] for [0 <= i < n] is item [i],
    and every other index raises the index error. *)
Theorem getitem_complete (fuel : nat) (h : Heap) (i : Z) :
  complete (fst h) = true ->
  ((- len_data h <= i < 0)%Z ->
   __getitem__ fuel (IInt i) h
   = __getitem__ fuel (IInt (len_data h + i)) h)
  /\ ((0 <= i < len_data h)%Z ->
      exists v,
        nth_error (data (fst h)) (Z.to_nat i) = Some v /\
        __getitem__ fuel (IInt i) h = Return v h)
  /\ ((i < - len_data h \/ len_data h <= i)%Z ->
      __getitem__ fuel (IInt i) h = Raise IndexError h).
Proof.
  intros Hc.
  destruct (proj2 (no_fetch_when_available_core fuel h) Hc) as (_ & Hg & _).
  rewrite !Hg. unfold data_getitem, py_index, len_data.
  split; [|split].
  - intros Hi.
    destruct (Z.leb_spec 0 i); [lia|].
    destruct (Z.leb_spec (- Z.of_nat (List.length (data (fst h)))) i);
      [|lia].
    destruct (Z.leb_spec 0 (Z.of_nat (List.length (data (fst h))) + i));
      [reflexivity|lia].
  - intros Hi. destruct (Z.leb_spec 0 i); [|lia].
    destruct (nth_error (data (fst h)) (Z.to_nat i)) as [v|] eqn:N.
    + exists v. auto.
    + apply nth_error_None in N. lia.
  - intros [Hi|Hi].
    + destruct (Z.leb_spec 0 i); [lia|].
      destruct (Z.leb_spec (- Z.of_nat (List.length (data (fst h)))) i);
        [lia|reflexivity].
    + destruct (Z.leb_spec 0 i); [|lia].
      destruct (nth_error (data (fst h)) (Z.to_nat i)) as [v|] eqn:N;
        [|reflexivity].
      assert (Z.to_nat i < List.length (data (fst h)))
        by (apply nth_error_Some; congruence).
      lia.
Qed.

End StreamMore.

Lemma stream_keeps_request_witness :
  token (snd demo_heap_drained) = token demo_conn_last_page
  /\ query (fst demo_heap_drained) = query demo_stream_open
  /\ it_token (fst demo_heap_drained) = it_token demo_stream_open
  /\ more_query (fst demo_heap_drained) = more_query demo_stream_open.
Proof.
  apply (@stream_keeps_request demo_ext 10 (OpReadUntil None)
           (demo_stream_open, demo_conn_last_page) demo_heap_drained).
  vm_compute. reflexivity.
Defined.

Lemma read_more_sends_continue_witness :
  sent (socket (snd demo_heap_drained))
  = sent (socket demo_conn_last_page) ++ [x02; x00; x00; x00; x02; x01]
  /\ @read_more demo_ext 10 (demo_stream_open, demo_conn_send_fault)
     = Raise SocketError
         (demo_stream_open,
          {| token := 2%Z;
             socket := {| sent := [x02; x00; x00];
                          incoming := [[x02; x00]; [x00; x00; x03]; [x63]];
                          faults := [] |} |}).
Proof.
  split.
  - apply (@read_more_sends_continue demo_ext 10 demo_stream_open
             (fst demo_heap_drained) demo_conn_last_page
             (snd demo_heap_drained)
             [x02; x00; x00; x00; x02; x01]).
    + reflexivity.
    + reflexivity.
    + vm_compute. reflexivity.
  - apply (@read_more_sends_continue demo_ext 10 demo_stream_open
             demo_stream_open demo_conn_send_fault
             {| token := 2%Z;
                socket := {| sent := [x02; x00; x00];
                             incoming := [[x02; x00]; [x00; x00; x03];
                                          [x63]];
                             faults := [] |} |}
             [x02; x00; x00; x00; x02; x01]).
    + reflexivity.
    + reflexivity.
    + vm_compute. reflexivity.
Defined.

Lemma no_fetch_when_available_witness :
  @read_until demo_ext 0 (Some 1%Z) (demo_stream_open, demo_conn_last_page)
  = Return tt (demo_stream_open, demo_conn_last_page)
  /\ @read_until demo_ext 0 None (demo_stream_done, demo_conn_closed)
     = Return tt (demo_stream_done, demo_conn_closed).
Proof.
  split.
  - apply (proj1 (@no_fetch_when_available demo_ext 0
                    (demo_stream_open, demo_conn_last_page))).
    reflexivity.
  - apply (proj2 (@no_fetch_when_available demo_ext 0
                    (demo_stream_done, demo_conn_closed))).
    reflexivity.
Defined.

Lemma iter_yields_held_witness :
  @__iter__ demo_ext 2 (demo_stream_open, demo_conn_last_page)
  = Return
      (if complete (fst (demo_stream_open, demo_conn_last_page))
       then [] else data (fst (demo_stream_open, demo_conn_last_page)))
      (demo_stream_open, demo_conn_last_page).
Proof.
  apply (@iter_yields_held demo_ext 2
           (demo_stream_open, demo_conn_last_page)).
  apply le_n.
Defined.

Lemma getitem_complete_witness :
  @__getitem__ demo_ext 0 (IInt (-1)%Z) (demo_stream_done, demo_conn_closed)
  = @__getitem__ demo_ext 0
      (IInt (len_data (demo_stream_done, demo_conn_closed) + -1)%Z)
      (demo_stream_done, demo_conn_closed).
Proof.
  apply (proj1 (@getitem_complete demo_ext 0
                  (demo_stream_done, demo_conn_closed) (-1)%Z eq_refl)).
  split; [discriminate|reflexivity].
Defined.

(* ------------------------------------------------------------------ *)
(** ** Markers in plain text *)

Lemma string_app_nil_r (s : string) : (s ++ "")%string = s.
Proof. induction s; simpl; congruence. Qed.

Lemma string_app_assoc (a b c : string) :
  ((a ++ b) ++ c)%string = (a ++ b ++ c)%string.
Proof. induction a; simpl; congruence. Qed.

Lemma occurs_app (c : ascii) (a b : string) :
  occurs c (a ++ b) = occurs c a || occurs c b.
Proof.
  induction a as [|x a IH]; simpl; trivial.
  rewrite IH. apply orb_assoc.
Qed.

Lemma strip_prefix_self (sep r : string) :
  PyStr.strip_prefix sep (sep ++ r) = Some r.
Proof.
  induction sep as [|a sep IH]; simpl; trivial.
  rewrite Ascii.eqb_refl. exact IH.
Qed.

Lemma strip_prefix_needs (c : ascii) (sep s : string) :
  occurs c sep = true -> occurs c s = false ->
  PyStr.strip_prefix sep s = None.
Proof.
  intros Hsep Hs. destruct (PyStr.strip_prefix sep s) as [r|] eqn:E; trivial.
  apply strip_prefix_app in E. subst s.
  rewrite occurs_app, Hsep in Hs. discriminate.
Qed.

Lemma partition_skip (a0 : ascii) (sep x s : string) :
  occurs a0 x = false ->
  PyStr.partition (String a0 sep) (x ++ s)
  = match PyStr.partition (String a0 sep) s with
    | Some (b, a) => Some ((x ++ b)%string, a)
    | None => None
    end.
Proof.
  induction x as [|c x IH]; intros Hx.
  - simpl. destruct (PyStr.partition (String a0 sep) s) as [[b a]|];
      reflexivity.
  - simpl in Hx. apply orb_false_iff in Hx as [Hc Hx].
    cbn [String.append PyStr.partition PyStr.strip_prefix].
    rewrite Hc. rewrite (IH Hx).
    destruct (PyStr.partition (String a0 sep) s) as [[b a]|]; reflexivity.
Qed.

Lemma partition_absent (a0 : ascii) (sep s : string) :
  occurs a0 s = false -> PyStr.partition (String a0 sep) s = None.
Proof.
  intros H. rewrite <- (string_app_nil_r s). rewrite partition_skip by exact H.
  reflexivity.
Qed.

Lemma partition_same (a0 : ascii) (sep s : string) :
  PyStr.partition (String a0 sep) (String a0 s)
  = match PyStr.strip_prefix sep s with
    | Some rest => Some (EmptyString, rest)
    | None =>
        match PyStr.partition (String a0 sep) s with
        | Some (b, a) => Some (String a0 b, a)
        | None => None
        end
    end.
Proof.
  cbn [PyStr.partition PyStr.strip_prefix]. rewrite Ascii.eqb_refl.
  reflexivity.
Qed.

Lemma partition_found (a0 : ascii) (sep x r : string) :
  occurs a0 x = false ->
  PyStr.partition (String a0 sep) (x ++ String a0 sep ++ r)
  = Some (x, r).
Proof.
  intros Hx. rewrite partition_skip by exact Hx.
  cbn [String.append]. rewrite partition_same, strip_prefix_self.
  rewrite string_app_nil_r. reflexivity.
Qed.

Lemma count_once (a0 : ascii) (sep s b a : string) :
  PyStr.partition (String a0 sep) s = Some (b, a) ->
  PyStr.partition (String a0 sep) a = None ->
  PyStr.count (String a0 sep) s = 1.
Proof.
  intros Hs Ha. unfold PyStr.count.
  destruct s as [|c s]; [discriminate|].
  cbn [String.length PyStr.count_fuel]. rewrite Hs.
  destruct (String.length s); cbn [PyStr.count_fuel]; rewrite Ha;
    reflexivity.
Qed.

Lemma split_once (a0 : ascii) (sep s b a : string) :
  PyStr.partition (String a0 sep) s = Some (b, a) ->
  PyStr.partition (String a0 sep) a = None ->
  PyStr.split (String a0 sep) s = [b; a].
Proof.
  intros Hs Ha. unfold PyStr.split.
  destruct s as [|c s]; [discriminate|].
  cbn [String.length PyStr.split_fuel]. rewrite Hs.
  destruct (String.length s); cbn [PyStr.split_fuel]; rewrite Ha;
    reflexivity.
Qed.

Lemma split_none (sep s : string) :
  PyStr.partition sep s = None -> PyStr.split sep s = [s].
Proof.
  intros H. unfold PyStr.split.
  destruct (String.length s); cbn [PyStr.split_fuel]; rewrite H; reflexivity.
Qed.

Lemma rstrip_cons_nonspace (c : ascii) (s : string) :
  Ascii.eqb c PyStr.space = false ->
  PyStr.rstrip (String c s) = String c (PyStr.rstrip s).
Proof.
  intros H. cbn [PyStr.rstrip]. destruct (PyStr.rstrip s); [rewrite H|];
    reflexivity.
Qed.

Lemma rstrip_app_cons (c : ascii) (x s : string) :
  Ascii.eqb c PyStr.space = false ->
  PyStr.rstrip (x ++ String c s) = (x ++ String c (PyStr.rstrip s))%string.
Proof.
  intros H. induction x as [|a x IH].
  - apply rstrip_cons_nonspace, H.
  - cbn [String.append PyStr.rstrip]. rewrite IH.
    destruct x; reflexivity.
Qed.

Lemma occurs_rstrip (c : ascii) (s : string) :
  occurs c s = false -> occurs c (PyStr.rstrip s) = false.
Proof.
  induction s as [|a s IH]; simpl; trivial.
  intros H. apply orb_false_iff in H as [Ha Hs]. specialize (IH Hs).
  destruct (PyStr.rstrip s) eqn:E.
  - destruct (Ascii.eqb a PyStr.space); simpl; trivial.
    rewrite Ha. reflexivity.
  - simpl. rewrite Ha. exact IH.
Qed.

Lemma partition_other (a0 c : ascii) (sep s : string) :
  Ascii.eqb a0 c = false ->
  PyStr.partition (String a0 sep) (String c s)
  = match PyStr.partition (String a0 sep) s with
    | Some (b, a) => Some (String c b, a)
    | None => None
    end.
Proof.
  intros H. cbn [PyStr.partition PyStr.strip_prefix]. rewrite H.
  reflexivity.
Qed.

Lemma partition_begin_after_end (after : string) :
  occurs NUL after = false ->
  PyStr.partition PRETTY_PRINT_BEGIN_TARGET
    (PRETTY_PRINT_END_TARGET ++ after) = None.
Proof.
  intros H. unfold PRETTY_PRINT_BEGIN_TARGET, PRETTY_PRINT_END_TARGET.
  cbn [String.append].
  rewrite partition_same. cbn [PyStr.strip_prefix Ascii.eqb Bool.eqb].
  rewrite !partition_other by reflexivity.
  rewrite partition_same.
  rewrite (strip_prefix_needs NUL) by (trivial; reflexivity).
  rewrite partition_absent by exact H. reflexivity.
Qed.

Lemma partition_begin_in_tail (target after : string) :
  occurs NUL target = false -> occurs NUL after = false ->
  PyStr.partition PRETTY_PRINT_BEGIN_TARGET
    (target ++ PRETTY_PRINT_END_TARGET ++ after) = None.
Proof.
  intros Ht Ha. unfold PRETTY_PRINT_BEGIN_TARGET at 1.
  rewrite partition_skip by exact Ht.
  fold PRETTY_PRINT_BEGIN_TARGET.
  rewrite partition_begin_after_end by exact Ha. reflexivity.
Qed.

Lemma partition_end_after_end (after : string) :
  occurs NUL after = false ->
  PyStr.partition PRETTY_PRINT_END_TARGET
    ("end" ++ String NUL after) = None.
Proof.
  intros H. unfold PRETTY_PRINT_END_TARGET. cbn [String.append].
  rewrite !partition_other by reflexivity.
  rewrite partition_same.
  rewrite (strip_prefix_needs NUL) by (trivial; reflexivity).
  rewrite partition_absent by exact H. reflexivity.
Qed.

(** The end marker can only start early, at the closing character of the
    begin marker, when the bracketed text is ["end"]. *)
Lemma strip_end_in_target (target after rest : string) :
  occurs NUL target = false ->
  PyStr.strip_prefix ("end" ++ String NUL EmptyString)
    (target ++ PRETTY_PRINT_END_TARGET ++ after) = Some rest ->
  rest = ("end" ++ String NUL after)%string.
Proof.
  unfold PRETTY_PRINT_END_TARGET. intros Ht.
  destruct target as [|c1 [|c2 [|c3 [|c4 t]]]];
    cbn [String.append PyStr.strip_prefix];
    repeat match goal with
      | |- context [Ascii.eqb ?a ?b] =>
          destruct (Ascii.eqb_spec a b); try discriminate
      end;
    try (intros [= <-]; reflexivity).
  subst. simpl in Ht. discriminate.
Qed.

Lemma partition_end_over_begin (x : string) :
  PyStr.partition PRETTY_PRINT_END_TARGET (PRETTY_PRINT_BEGIN_TARGET ++ x)
  = match PyStr.strip_prefix ("end" ++ String NUL EmptyString) x with
    | Some rest => Some (String NUL "begin", rest)
    | None =>
        match PyStr.partition PRETTY_PRINT_END_TARGET x with
        | Some (b, a) => Some ((PRETTY_PRINT_BEGIN_TARGET ++ b)%string, a)
        | None => None
        end
    end.
Proof.
  unfold PRETTY_PRINT_BEGIN_TARGET, PRETTY_PRINT_END_TARGET.
  cbn [String.append].
  rewrite partition_same.
  assert (forall y,
             PyStr.strip_prefix
               (String "e" (String "n" (String "d" (String NUL ""))))
               (String "b" y) = None) as E0 by reflexivity.
  rewrite E0. clear E0.
  rewrite !partition_other by reflexivity.
  rewrite partition_same.
  destruct (PyStr.strip_prefix _ x); [reflexivity|].
  destruct (PyStr.partition _ x) as [[b a]|]; reflexivity.
Qed.

Lemma partition_end_in_line (before target after : string) :
  occurs NUL before = false ->
  occurs NUL target = false ->
  occurs NUL after = false ->
  exists b a,
    PyStr.partition PRETTY_PRINT_END_TARGET
      (before ++ PRETTY_PRINT_BEGIN_TARGET ++ target
         ++ PRETTY_PRINT_END_TARGET ++ after)
    = Some (b, a)
    /\ PyStr.partition PRETTY_PRINT_END_TARGET a = None.
Proof.
  intros Hb Ht Ha.
  unfold PRETTY_PRINT_END_TARGET at 1.
  rewrite partition_skip by exact Hb.
  fold PRETTY_PRINT_END_TARGET.
  rewrite partition_end_over_begin.
  destruct (PyStr.strip_prefix ("end" ++ String NUL "")
              (target ++ PRETTY_PRINT_END_TARGET ++ after)) as [rest|] eqn:E.
  - apply strip_end_in_target in E; [|exact Ht]. subst rest.
    eexists _, _. split; [reflexivity|].
    apply partition_end_after_end, Ha.
  - unfold PRETTY_PRINT_END_TARGET at 1 2.
    rewrite partition_found by exact Ht.
    eexists _, _. split; [reflexivity|].
    apply partition_absent, Ha.
Qed.

Lemma rstrip_marked_line (before target after : string) :
  PyStr.rstrip
    (before ++ PRETTY_PRINT_BEGIN_TARGET ++ target
       ++ PRETTY_PRINT_END_TARGET ++ after)
  = (before ++ PRETTY_PRINT_BEGIN_TARGET ++ target
       ++ PRETTY_PRINT_END_TARGET ++ PyStr.rstrip after)%string.
Proof.
  unfold PRETTY_PRINT_BEGIN_TARGET, PRETTY_PRINT_END_TARGET.
  cbn [String.append].
  rewrite rstrip_app_cons by reflexivity.
  rewrite !rstrip_cons_nonspace by reflexivity.
  rewrite rstrip_app_cons by reflexivity.
  rewrite !rstrip_cons_nonspace by reflexivity.
  reflexivity.
Qed.

Lemma location_line_marked (before target after : string) :
  occurs NUL before = false ->
  occurs NUL target = false ->
  occurs NUL after = false ->
  location_line false
    (before ++ PRETTY_PRINT_BEGIN_TARGET ++ target
       ++ PRETTY_PRINT_END_TARGET ++ after)
  = Ok ([(before ++ target ++ PyStr.rstrip after)%string;
         (spaces (String.length before)
            ++ carets (String.length target))%string],
        false).
Proof.
  intros Hb Ht Ha. unfold location_line.
  rewrite rstrip_marked_line.
  pose proof (occurs_rstrip NUL after Ha) as Ha'.
  set (after' := PyStr.rstrip after) in *.
  assert (PyStr.partition PRETTY_PRINT_BEGIN_TARGET
            (before ++ PRETTY_PRINT_BEGIN_TARGET ++ target
               ++ PRETTY_PRINT_END_TARGET ++ after')
          = Some (before,
                  (target ++ PRETTY_PRINT_END_TARGET ++ after')%string))
    as HB by (apply partition_found; exact Hb).
  pose proof (partition_begin_in_tail target after' Ht Ha') as HBtail.
  destruct (partition_end_in_line before target after' Hb Ht Ha')
    as (b & a & HE & _).
  assert (PyStr.partition PRETTY_PRINT_END_TARGET
            (target ++ PRETTY_PRINT_END_TARGET ++ after')
          = Some (target, after'))
    as HE2 by (apply partition_found; exact Ht).
  assert (PyStr.partition PRETTY_PRINT_END_TARGET after' = None)
    as HE3 by (apply partition_absent; exact Ha').
  assert (PyStr.split PRETTY_PRINT_BEGIN_TARGET
            (before ++ PRETTY_PRINT_BEGIN_TARGET ++ target
               ++ PRETTY_PRINT_END_TARGET ++ after')
          = [before; (target ++ PRETTY_PRINT_END_TARGET ++ after')%string])
    as HS1 by exact (split_once NUL _ _ _ _ HB HBtail).
  assert (PyStr.split PRETTY_PRINT_END_TARGET
            (target ++ PRETTY_PRINT_END_TARGET ++ after')
          = [target; after'])
    as HS2 by exact (split_once NUL _ _ _ _ HE2 HE3).
  unfold PyStr.contains. rewrite HB, HE. cbn [negb].
  rewrite HS1. cbn [unpack2]. rewrite HS2. reflexivity.
Qed.

Lemma location_one_line_core (before target after : string) :
  plain_text before -> plain_text target -> plain_text after ->
  location
    (before ++ PRETTY_PRINT_BEGIN_TARGET ++ target
       ++ PRETTY_PRINT_END_TARGET ++ after)
  = Ok ((before ++ target ++ PyStr.rstrip after) ++ newline
        ++ spaces (String.length before)
        ++ carets (String.length target))%string.
Proof.
  intros [Hb Hbn] [Ht Htn] [Ha Han].
  set (q := (before ++ PRETTY_PRINT_BEGIN_TARGET ++ target
               ++ PRETTY_PRINT_END_TARGET ++ after)%string).
  assert (PyStr.count PRETTY_PRINT_BEGIN_TARGET q = 1) as Hcb.
  { apply (count_once NUL ("begin" ++ String NUL "") q before
             (target ++ PRETTY_PRINT_END_TARGET ++ after)).
    - apply (partition_found NUL ("begin" ++ String NUL "")). exact Hb.
    - apply partition_begin_in_tail; assumption. }
  assert (PyStr.count PRETTY_PRINT_END_TARGET q = 1) as Hce.
  { destruct (partition_end_in_line before target after Hb Ht Ha)
      as (b & a & HE & HE').
    exact (count_once NUL ("end" ++ String NUL "") q b a HE HE'). }
  assert (PyStr.split newline q = [q]) as Hsplit.
  { apply split_none. apply (partition_absent (ascii_of_nat 10) "").
    unfold q. rewrite !occurs_app, Hbn, Htn, Han. reflexivity. }
  unfold location. rewrite Hcb, Hce, Hsplit. cbn [Nat.eqb andb negb].
  cbn [location_loop]. unfold q.
  rewrite location_line_marked by assumption.
  reflexivity.
Qed.

(** X13: for a query rendered on one line, with the target bracketed by
    the two markers and neither the marker character nor a line break in the
    text before, inside and after the brackets, [location] returns two
    lines: the text with the markers removed and its trailing spaces
    dropped, and under it as many spaces as the text before the target has
    characters followed by as many carets as the target has. *)
Theorem location_one_line (before target after : string) :
  plain_text before -> plain_text target -> plain_text after ->
  location
    (before ++ PRETTY_PRINT_BEGIN_TARGET ++ target
       ++ PRETTY_PRINT_END_TARGET ++ after)
  = Ok ((before ++ target ++ PyStr.rstrip after) ++ newline
        ++ spaces (String.length before)
        ++ carets (String.length target))%string.
Proof. exact (location_one_line_core before target after). Qed.

Lemma location_one_line_witness :
  location demo_add
  = Ok (("add(1, " ++ "2" ++ PyStr.rstrip ")") ++ newline
        ++ spaces (String.length "add(1, ")
        ++ carets (String.length "2"))%string.
Proof.
  apply (location_one_line "add(1, " "2" ")"); split; reflexivity.
Defined.

(** X14: at the target node, for a text without the marker character and
    without line breaks, [consider_backtrace] followed by [location] gives
    the text on one line and a row of carets of the length of the text
    under it. *)
Theorem target_underlined (self : BacktracePrettyPrinter) (s : string)
    (steps : backtrace) :
  plain_text s ->
  current_backtrace self ++ steps = target_backtrace self ->
  exists marked,
    consider_backtrace self s steps = Ok marked
    /\ location marked
       = Ok (s ++ newline ++ carets (String.length s))%string.
Proof.
  intros Hs Hpath.
  exists (PRETTY_PRINT_BEGIN_TARGET ++ s ++ PRETTY_PRINT_END_TARGET)%string.
  split.
  - unfold consider_backtrace, consider_backtrace_opt, backtrace_eqb.
    destruct (list_eq_dec string_dec _ _) as [_|N]; [|contradiction].
    assert (PyStr.partition PRETTY_PRINT_BEGIN_TARGET s = None) as H1
        by exact (partition_absent NUL _ s (proj1 Hs)).
    assert (PyStr.partition PRETTY_PRINT_END_TARGET s = None) as H2
        by exact (partition_absent NUL _ s (proj1 Hs)).
    unfold PyStr.contains. rewrite H1, H2. reflexivity.
  - pose proof (location_one_line_core "" s "" (conj eq_refl eq_refl) Hs
                  (conj eq_refl eq_refl)) as H.
    cbn [String.append String.length PyStr.rstrip spaces PyStr.repeat] in H.
    rewrite !string_app_nil_r in H. exact H.
Qed.

Lemma target_underlined_witness :
  exists marked,
    consider_backtrace
      {| current_backtrace := ["0"]; target_backtrace := ["0"; "1"] |}
      "row" ["1"] = Ok marked
    /\ location marked
       = Ok ("row" ++ newline ++ carets (String.length "row"))%string.
Proof.
  apply (target_underlined
           {| current_backtrace := ["0"]; target_backtrace := ["0"; "1"] |}
           "row" ["1"]).
  - split; reflexivity.
  - reflexivity.
Defined.

(* ------------------------------------------------------------------ *)
(** ** Opening a connection, failing fetches and draining *)

Section Draining.
Context {ext : Externals}.

(** X15: [Connection.__init__] cannot fail on packing the handshake value.
    When its call of [sendall] goes through, it returns a connection whose
    token counter is 1, having written the four bytes 35 ba 61 af (the
    value 0xaf61ba35, low byte first) and nothing else, and read nothing;
    when the call fails after [k] bytes at most, it raises this
    [socket.error], having written the first [k] of these bytes. *)
Theorem handshake_sent (sock : Socket) :
  match hd None (faults sock) with
  | None =>
      exists conn,
        Connection__init__ sock = Return conn (socket conn)
        /\ token conn = 1%Z
        /\ sent (socket conn) = sent sock ++ [x35; xba; x61; xaf]
        /\ incoming (socket conn) = incoming sock
  | Some k =>
      exists sock',
        Connection__init__ sock = Raise SocketError sock'
        /\ sent sock' = sent sock ++ firstn k [x35; xba; x61; xaf]
        /\ incoming sock' = incoming sock
  end.
Proof.
  unfold Connection__init__.
  assert (pack_L HANDSHAKE = Some [x35; xba; x61; xaf]) as ->
      by (vm_compute; reflexivity).
  unfold sendall.
  destruct (hd None (faults sock)) as [k|].
  - eexists. split; [reflexivity|]. repeat split.
  - exists {| token := 1%Z;
              socket := {| sent := sent sock ++ [x35; xba; x61; xaf];
                           incoming := incoming sock;
                           faults := tl (faults sock) |} |}.
    repeat split.
Qed.

(** X16: an error raised by [read_more] is the error of the operation
    that needed the fetch, with the stream as it was before: of
    [read_until(None)], of [read_until(i)] and [self[i]] when item [i] is
    not held, of [self[i]] for a negative [i], and of [self == l] when no
    more items are held than [l] has. *)
Theorem fetch_error_propagates (fuel : nat) (h h' : Heap) (e : exn) :
  read_more (S fuel) h = Raise e h' ->
  fst h' = fst h
  /\ read_until (S fuel) None h = Raise e h'
  /\ (forall i,
        available i h = false ->
        read_until (S fuel) (Some i) h = Raise e h'
        /\ ((0 <= i)%Z -> __getitem__ (S fuel) (IInt i) h = Raise e h'))
  /\ (forall i,
        (i < 0)%Z -> __getitem__ (S fuel) (IInt i) h = Raise e h')
  /\ (forall l,
        (len_data h <= Z.of_nat (List.length l))%Z ->
        __eq__ (S fuel) (OtherList l) h = Raise e h').
Proof.
  intros Hr.
  assert (complete (fst h) = false) as Hc.
  { destruct (complete (fst h)) eqn:Hc; trivial.
    rewrite read_more_complete in Hr by exact Hc. discriminate. }
  assert (forall cond : Heap -> bool,
             cond h = true ->
             while (S fuel) cond (read_more (S fuel)) h = Raise e h') as Hw.
  { intros cond Hcond. cbn [while]. rewrite Hcond, Hr. reflexivity. }
  assert (read_until (S fuel) None h = Raise e h') as Hn.
  { unfold read_until. apply Hw. rewrite Hc. reflexivity. }
  assert (forall i, available i h = false ->
                    read_until (S fuel) (Some i) h = Raise e h') as Hi.
  { intros i Ha. unfold available in Ha.
    apply orb_false_iff in Ha as [_ Ha]. apply Z.ltb_ge in Ha.
    unfold read_until.
    destruct (Z.leb_spec (len_data h) i); [|lia].
    apply Hw. rewrite Hc. simpl.
    apply Z.leb_le. assumption. }
  split; [exact (read_more_raise _ _ _ _ Hr)|].
  split; [exact Hn|]. split; [|split].
  - intros i Ha. split; [exact (Hi i Ha)|].
    intros Hpos. unfold __getitem__, bind.
    destruct (Z.ltb_spec i 0); [lia|]. rewrite (Hi i Ha). reflexivity.
  - intros i Hneg. unfold __getitem__, bind.
    destruct (Z.ltb_spec i 0); [|lia]. rewrite Hn. reflexivity.
  - intros l Hl. unfold __eq__, bind. rewrite Hi; [reflexivity|].
    unfold available. rewrite Hc. simpl. apply Z.ltb_ge. exact Hl.
Qed.

Lemma while_collects (fuel : nat) (bytes rest : list byte)
    (pages : list (list JSON)) :
  paged fuel bytes pages rest ->
  4 <= fuel ->
  forall n self conn,
    pending conn = bytes ->
    Forall nonempty (incoming (socket conn)) ->
    faults (socket conn) = [] ->
    complete self = false ->
    frame (SerializeToString (more_query self)) <> None ->
    List.length pages <= n ->
    exists self' conn',
      while n (fun h : Heap => negb (complete (fst h))) (read_more fuel)
        (self, conn)
      = Return tt (self', conn')
      /\ data self' = data self ++ List.concat pages
      /\ complete self' = true
      /\ pending conn' = rest.
Proof.
  intros Hpaged Hfuel4.
  induction Hpaged
    as [payload f rest resp items Hf Hlen Hparse Hst Hitems
       |payload f bytes rest resp items pages Hf Hlen Hparse Hst Hitems
          Hpaged IH];
    intros n self conn Hpend Hne Hok Hc Hreq Hn;
    (destruct n as [|n]; [simpl in Hn; lia|]);
    destruct (_run_reads_one_frame_core fuel (more_query self) (query self) conn
                payload f _ Hne Hok Hreq Hf Hpend Hfuel4 Hlen)
      as (c1 & Hp1 & Hne1 & Hok1 & Hrun);
    rewrite Hparse in Hrun; unfold dispatch in Hrun;
    rewrite Hst, Hitems in Hrun;
    cbn [while fst]; rewrite Hc; cbn [negb];
    unfold read_more; rewrite Hc, Hrun.
  - cbn [status_eqb iadd]. unfold status_eqb.
    destruct (StatusCode_eq_dec SUCCESS_STREAM SUCCESS_STREAM);
      [|contradiction].
    cbn [iadd data set_complete].
    eexists _, _. split.
    + destruct n; reflexivity.
    + cbn [data set_data complete set_complete List.concat].
      rewrite app_nil_r. repeat split; trivial.
  - unfold status_eqb.
    destruct (StatusCode_eq_dec SUCCESS_PARTIAL SUCCESS_STREAM);
      [discriminate|].
    cbn [iadd].
    destruct (IH n (set_data (data self ++ items) self) c1 Hp1 Hne1 Hok1 Hc
                Hreq)
      as (self' & conn' & Hw & Hd & Hcomp & Hrest).
    { simpl in Hn. lia. }
    exists self', conn'. split; [exact Hw|].
    split; [|split; trivial].
    rewrite Hd. cbn [data set_data List.concat]. symmetry; apply app_assoc.
Qed.

(** X17: when no call on the socket fails and the peer delivers, cut into
    non-empty segments in any way, the frames of pages marked
    SUCCESS_PARTIAL followed by the frame of a page marked SUCCESS_STREAM,
    [read_until(None)] at an open stream returns
    with the stream complete, holding its earlier items followed by the
    items of all the pages in the order of arrival, and with the bytes
    after these frames still to be read. *)
Theorem read_until_None_collects (fuel : nat) (self : BatchedIterator)
    (conn : Connection) (pages : list (list JSON)) (rest : list byte) :
  paged fuel (pending conn) pages rest ->
  Forall nonempty (incoming (socket conn)) ->
  faults (socket conn) = [] ->
  complete self = false ->
  frame (SerializeToString (more_query self)) <> None ->
  4 <= fuel ->
  List.length pages <= fuel ->
  exists self' conn',
    read_until fuel None (self, conn) = Return tt (self', conn')
    /\ data self' = data self ++ List.concat pages
    /\ complete self' = true
    /\ pending conn' = rest.
Proof.
  intros Hpaged Hne Hok Hc Hreq Hfuel4 Hn.
  exact (while_collects fuel _ rest pages Hpaged Hfuel4 fuel self conn
           eq_refl Hne Hok Hc Hreq Hn).
Qed.

End Draining.

Lemma fetch_error_propagates_witness :
  @read_until demo_ext 10 None (demo_stream_open, demo_conn_error)
  = Raise (ExecutionError "boom" ["1"] ("q" : @Expr demo_ext))
      (demo_stream_open,
       {| token := 2%Z;
          socket := {| sent := [x02; x00; x00; x00; x02; x01];
                       incoming := [];
                       faults := [] |} |}).
Proof.
  apply (proj1 (proj2 (@fetch_error_propagates demo_ext 9
                         (demo_stream_open, demo_conn_error)
                         (demo_stream_open,
                          {| token := 2%Z;
                             socket := {| sent := [x02; x00; x00; x00;
                                                   x02; x01];
                                          incoming := [];
                                          faults := [] |} |})
                         (ExecutionError "boom" ["1"]
                            ("q" : @Expr demo_ext))
                         eq_refl))).
Defined.

Lemma read_until_None_collects_witness :
  exists self' conn',
    @read_until demo_ext 4 None (demo_stream_open, demo_conn_two_pages)
    = Return tt (self', conn')
    /\ data self'
       = data demo_stream_open
           ++ List.concat ([["c"]; ["d"; "e"]] : list (list (@JSON demo_ext)))
    /\ complete self' = true
    /\ pending conn' = [].
Proof.
  apply (@read_until_None_collects demo_ext 4 demo_stream_open
           demo_conn_two_pages [["c"]; ["d"; "e"]] []).
  - apply (@paged_more demo_ext 4 [x02; x63]
             [x02; x00; x00; x00; x02; x63]
             [x03; x00; x00; x00; x03; x64; x65] []
             {| status_code := SUCCESS_PARTIAL; response := ["c"];
                error_message := "boom"; backtrace_frame := ["1"] |}
             ["c"] [["d"; "e"]]);
      try reflexivity.
    + repeat constructor.
    + apply (@paged_last demo_ext 4 [x03; x64; x65]
               [x03; x00; x00; x00; x03; x64; x65] []
               {| status_code := SUCCESS_STREAM; response := ["d"; "e"];
                  error_message := "boom"; backtrace_frame := ["1"] |}
               ["d"; "e"]);
        try reflexivity.
      repeat constructor.
  - repeat constructor; discriminate.
  - reflexivity.
  - reflexivity.
  - vm_compute. discriminate.
  - apply le_n.
  - repeat constructor.
Defined.

Section Laziness.
Context {ext : Externals}.

(** X18: [read_until(i)] at an open stream that does not hold item [i]
    yet fetches one page and stops, when no call on the socket fails and
    the page the peer delivers makes item [i] available or is marked
    SUCCESS_STREAM: the stream then holds
    its earlier items followed by the items of this page, it is complete
    exactly if the page was marked SUCCESS_STREAM, and the bytes after the
    frame of the page are still to be read. *)
Theorem read_until_fetches_one_page (fuel : nat) (self : BatchedIterator)
    (conn : Connection) (payload f rest : list byte) (resp : Response)
    (items : list JSON) (i : Z) :
  Forall nonempty (incoming (socket conn)) ->
  faults (socket conn) = [] ->
  complete self = false ->
  frame (SerializeToString (more_query self)) <> None ->
  frame payload = Some f ->
  pending conn = f ++ rest ->
  4 <= fuel ->
  List.length payload <= fuel ->
  ParseFromString payload = Some resp ->
  status_code resp = SUCCESS_PARTIAL \/ status_code resp = SUCCESS_STREAM ->
  loads_all (response resp) = Some items ->
  (Z.of_nat (List.length (data self)) <= i)%Z ->
  (i < Z.of_nat (List.length (data self) + List.length items))%Z
  \/ status_code resp = SUCCESS_STREAM ->
  exists conn',
    read_until fuel (Some i) (self, conn)
    = Return tt
        (set_data (data self ++ items)
           (if status_eqb (status_code resp) SUCCESS_STREAM
            then set_complete true self else self),
         conn')
    /\ pending conn' = rest.
Proof.
  intros Hne Hok Hc Hreq Hf Hpend Hfuel4 Hlen Hparse Hst Hitems Hi Hstop.
  destruct (_run_reads_one_frame_core fuel (more_query self) (query self)
              conn payload f rest Hne Hok Hreq Hf Hpend Hfuel4 Hlen)
    as (c1 & Hp1 & _ & _ & Hrun).
  rewrite Hparse in Hrun.
  assert (dispatch resp (query self) = Ok (VList items, status_code resp))
    as Hd.
  { unfold dispatch. destruct Hst as [Hst|Hst]; rewrite Hst, Hitems;
      reflexivity. }
  rewrite Hd in Hrun.
  assert (read_more fuel (self, conn)
          = Return tt
              (set_data (data self ++ items)
                 (if status_eqb (status_code resp) SUCCESS_STREAM
                  then set_complete true self else self), c1)) as Hmore.
  { unfold read_more. rewrite Hc, Hrun.
    destruct (status_eqb (status_code resp) SUCCESS_STREAM); reflexivity. }
  exists c1. split; [|exact Hp1].
  unfold read_until, len_data. cbn [fst].
  destruct (Z.leb_spec (Z.of_nat (List.length (data self))) i); [|lia].
  destruct fuel as [|n]; [lia|].
  cbn [while fst]. rewrite Hc.
  destruct (Z.leb_spec (Z.of_nat (List.length (data self))) i); [|lia].
  cbn [negb andb]. rewrite Hmore.
  set (self' := set_data _ _).
  assert ((fun h : Heap =>
             negb (complete (fst h))
             && (Z.of_nat (List.length (data (fst h))) <=? i)%Z) (self', c1)
          = false) as Hcond.
  { cbn [fst]. unfold self'.
    destruct Hstop as [Hlt|Hstream].
    - apply andb_false_iff. right. apply Z.leb_gt.
      destruct (status_eqb (status_code resp) SUCCESS_STREAM);
        cbn [data set_data]; rewrite length_app; lia.
    - rewrite Hstream. reflexivity. }
  destruct n; cbn [while]; rewrite Hcond; reflexivity.
Qed.

End Laziness.

Lemma read_until_fetches_one_page_witness :
  exists conn',
    @read_until demo_ext 4 (Some 2%Z) (demo_stream_open, demo_conn_two_pages)
    = Return tt
        (@set_data demo_ext (data demo_stream_open ++ ["c"])
           (if status_eqb SUCCESS_PARTIAL SUCCESS_STREAM
            then @set_complete demo_ext true demo_stream_open
            else demo_stream_open),
         conn')
    /\ pending conn' = [x03; x00; x00; x00; x03; x64; x65].
Proof.
  apply (@read_until_fetches_one_page demo_ext 4 demo_stream_open
           demo_conn_two_pages [x02; x63] [x02; x00; x00; x00; x02; x63]
           [x03; x00; x00; x00; x03; x64; x65]
           {| status_code := SUCCESS_PARTIAL; response := ["c"];
              error_message := "boom"; backtrace_frame := ["1"] |}
           ["c"] 2%Z).
  - repeat constructor; discriminate.
  - reflexivity.
  - reflexivity.
  - vm_compute. discriminate.
  - reflexivity.
  - reflexivity.
  - apply le_n.
  - repeat constructor.
  - reflexivity.
  - left. reflexivity.
  - reflexivity.
  - vm_compute. discriminate.
  - left. vm_compute. reflexivity.
Defined.
